(** * SFLizer: frequency tables, KWIC concordance and SFL process lookup

    A shallow embedding of the pure parts of [SFLizer_1_04.py]
    ([extract_text], [kwic], [analyze_pos], [lemma_forms] and the way
    the page combines them) and of [streamlit_app.py] ([sfl_map],
    [extract_text], [analyze_text]), with the properties the
    specification states about them and further properties of the code.

    Conventions of the embedding.
    - Python [int] is [Z]; Python [str] is [str], the list of the code
      points of the string, so [len] counts code points; [str.lower] is
      the lower-casing of the Unicode character database, with its
      rule for a final sigma.
    - A spaCy [Doc] is the list of its tokens; a token is a record of the
      attributes the program reads.
    - Slices and subscripts follow Python: a slice clamps its bounds and
      never raises, a subscript out of range raises [IndexError].
    - A [Counter] is an association list in insertion order. *)

From Stdlib Require Import ZArith NArith List Bool Strings.Byte Lia.
From Stdlib Require Import Sorting.Sorted Sorting.Permutation.
Import ListNotations.

Local Open Scope list_scope.
Local Open Scope Z_scope.

(** ** Python strings

    A [str] is the sequence of its code points.  A literal is read as
    UTF-8. *)

Definition str : Type := list N.

Module Literal.

Inductive literal : Set :=
| lit_nil
| lit_cons (c : N) (r : literal).

Fixpoint of_str (s : str) : literal :=
  match s with
  | [] => lit_nil
  | c :: r => lit_cons c (of_str r)
  end.

(** The code points of a UTF-8 byte sequence. *)
Fixpoint decode (fuel : nat) (bs : list N) : str :=
  match fuel with
  | O => []
  | S fuel =>
      match bs with
      | [] => []
      | b0 :: r0 =>
          if (b0 <? 128)%N then b0 :: decode fuel r0
          else
            match r0 with
            | [] => [b0]
            | b1 :: r1 =>
                if (b0 <? 224)%N then
                  ((b0 - 192) * 64 + (b1 - 128))%N :: decode fuel r1
                else
                  match r1 with
                  | [] => [b0]
                  | b2 :: r2 =>
                      if (b0 <? 240)%N then
                        ((b0 - 224) * 4096 + (b1 - 128) * 64
                         + (b2 - 128))%N :: decode fuel r2
                      else
                        match r2 with
                        | [] => [b0]
                        | b3 :: r3 =>
                            ((b0 - 240) * 262144 + (b1 - 128) * 4096
                             + (b2 - 128) * 64 + (b3 - 128))%N
                            :: decode fuel r3
                        end
                  end
            end
      end
  end.

Definition parse (bs : list Byte.byte) : literal :=
  of_str (decode (List.length bs) (map Byte.to_N bs)).

Definition print (l : literal) : option (list Byte.byte) := None.

End Literal.

Declare Scope str_scope.
Delimit Scope str_scope with str.
Bind Scope str_scope with str.

#[warnings="-via-type-remapping,-via-type-mismatch"]
String Notation str Literal.parse Literal.print
  (via Literal.literal
   mapping [[nil] => Literal.lit_nil, [cons] => Literal.lit_cons])
  : str_scope.

Local Open Scope str_scope.

(** [a == b] on strings *)
Module Str.

Fixpoint eqb (a b : str) : bool :=
  match a, b with
  | [], [] => true
  | x :: a', y :: b' => ((x =? y)%N && eqb a' b')%bool
  | _, _ => false
  end.

End Str.

(** ** The case tables of [str.lower]

    [str.lower] is a library function; its tables are those of the
    Unicode character database (version 14.0.0, as in CPython 3.11). *)

Module Unicode.

(** The code points with a one-character lower-case form, as runs
    [(first, last, step, image of first)]: in a run every [step]-th code
    point from [first] to [last] is mapped, at the same distance. *)
Definition lower_runs : list (N * N * N * N) :=
  [
    (65, 90, 1, 97); (192, 214, 1, 224); (216, 222, 1, 248);
    (256, 302, 2, 257); (306, 310, 2, 307); (313, 327, 2, 314);
    (330, 374, 2, 331); (376, 376, 1, 255); (377, 381, 2, 378);
    (385, 385, 1, 595); (386, 388, 2, 387); (390, 390, 1, 596);
    (391, 391, 1, 392); (393, 394, 1, 598); (395, 395, 1, 396);
    (398, 398, 1, 477); (399, 399, 1, 601); (400, 400, 1, 603);
    (401, 401, 1, 402); (403, 403, 1, 608); (404, 404, 1, 611);
    (406, 406, 1, 617); (407, 407, 1, 616); (408, 408, 1, 409);
    (412, 412, 1, 623); (413, 413, 1, 626); (415, 415, 1, 629);
    (416, 420, 2, 417); (422, 422, 1, 640); (423, 423, 1, 424);
    (425, 425, 1, 643); (428, 428, 1, 429); (430, 430, 1, 648);
    (431, 431, 1, 432); (433, 434, 1, 650); (435, 437, 2, 436);
    (439, 439, 1, 658); (440, 440, 1, 441); (444, 444, 1, 445);
    (452, 452, 1, 454); (453, 453, 1, 454); (455, 455, 1, 457);
    (456, 456, 1, 457); (458, 458, 1, 460); (459, 475, 2, 460);
    (478, 494, 2, 479); (497, 497, 1, 499); (498, 500, 2, 499);
    (502, 502, 1, 405); (503, 503, 1, 447); (504, 542, 2, 505);
    (544, 544, 1, 414); (546, 562, 2, 547); (570, 570, 1, 11365);
    (571, 571, 1, 572); (573, 573, 1, 410); (574, 574, 1, 11366);
    (577, 577, 1, 578); (579, 579, 1, 384); (580, 580, 1, 649);
    (581, 581, 1, 652); (582, 590, 2, 583); (880, 882, 2, 881);
    (886, 886, 1, 887); (895, 895, 1, 1011); (902, 902, 1, 940);
    (904, 906, 1, 941); (908, 908, 1, 972); (910, 911, 1, 973);
    (913, 929, 1, 945); (932, 939, 1, 964); (975, 975, 1, 983);
    (984, 1006, 2, 985); (1012, 1012, 1, 952); (1015, 1015, 1, 1016);
    (1017, 1017, 1, 1010); (1018, 1018, 1, 1019); (1021, 1023, 1, 891);
    (1024, 1039, 1, 1104); (1040, 1071, 1, 1072); (1120, 1152, 2, 1121);
    (1162, 1214, 2, 1163); (1216, 1216, 1, 1231); (1217, 1229, 2, 1218);
    (1232, 1326, 2, 1233); (1329, 1366, 1, 1377); (4256, 4293, 1, 11520);
    (4295, 4295, 1, 11559); (4301, 4301, 1, 11565); (5024, 5103, 1, 43888);
    (5104, 5109, 1, 5112); (7312, 7354, 1, 4304); (7357, 7359, 1, 4349);
    (7680, 7828, 2, 7681); (7838, 7838, 1, 223); (7840, 7934, 2, 7841);
    (7944, 7951, 1, 7936); (7960, 7965, 1, 7952); (7976, 7983, 1, 7968);
    (7992, 7999, 1, 7984); (8008, 8013, 1, 8000); (8025, 8031, 2, 8017);
    (8040, 8047, 1, 8032); (8072, 8079, 1, 8064); (8088, 8095, 1, 8080);
    (8104, 8111, 1, 8096); (8120, 8121, 1, 8112); (8122, 8123, 1, 8048);
    (8124, 8124, 1, 8115); (8136, 8139, 1, 8050); (8140, 8140, 1, 8131);
    (8152, 8153, 1, 8144); (8154, 8155, 1, 8054); (8168, 8169, 1, 8160);
    (8170, 8171, 1, 8058); (8172, 8172, 1, 8165); (8184, 8185, 1, 8056);
    (8186, 8187, 1, 8060); (8188, 8188, 1, 8179); (8486, 8486, 1, 969);
    (8490, 8490, 1, 107); (8491, 8491, 1, 229); (8498, 8498, 1, 8526);
    (8544, 8559, 1, 8560); (8579, 8579, 1, 8580); (9398, 9423, 1, 9424);
    (11264, 11311, 1, 11312); (11360, 11360, 1, 11361); (11362, 11362, 1, 619);
    (11363, 11363, 1, 7549); (11364, 11364, 1, 637); (11367, 11371, 2, 11368);
    (11373, 11373, 1, 593); (11374, 11374, 1, 625); (11375, 11375, 1, 592);
    (11376, 11376, 1, 594); (11378, 11378, 1, 11379); (11381, 11381, 1, 11382);
    (11390, 11391, 1, 575); (11392, 11490, 2, 11393); (11499, 11501, 2, 11500);
    (11506, 11506, 1, 11507); (42560, 42604, 2, 42561); (42624, 42650, 2, 42625);
    (42786, 42798, 2, 42787); (42802, 42862, 2, 42803); (42873, 42875, 2, 42874);
    (42877, 42877, 1, 7545); (42878, 42886, 2, 42879); (42891, 42891, 1, 42892);
    (42893, 42893, 1, 613); (42896, 42898, 2, 42897); (42902, 42920, 2, 42903);
    (42922, 42922, 1, 614); (42923, 42923, 1, 604); (42924, 42924, 1, 609);
    (42925, 42925, 1, 620); (42926, 42926, 1, 618); (42928, 42928, 1, 670);
    (42929, 42929, 1, 647); (42930, 42930, 1, 669); (42931, 42931, 1, 43859);
    (42932, 42946, 2, 42933); (42948, 42948, 1, 42900); (42949, 42949, 1, 642);
    (42950, 42950, 1, 7566); (42951, 42953, 2, 42952); (42960, 42960, 1, 42961);
    (42966, 42968, 2, 42967); (42997, 42997, 1, 42998); (65313, 65338, 1, 65345);
    (66560, 66599, 1, 66600); (66736, 66771, 1, 66776); (66928, 66964, 2, 66967);
    (66929, 66937, 2, 66968); (66941, 66953, 2, 66980); (66957, 66961, 2, 66996);
    (66965, 66965, 1, 67004); (68736, 68786, 1, 68800); (71840, 71871, 1, 71872);
    (93760, 93791, 1, 93792); (125184, 125217, 1, 125218)
  ]%N.

(** The code points with the property [Case_Ignorable], as ranges. *)
Definition case_ignorable_ranges : list (N * N) :=
  [
    (39, 39); (46, 46); (58, 58); (94, 94); (96, 96);
    (168, 168); (173, 173); (175, 175); (180, 180); (183, 184);
    (688, 879); (884, 885); (890, 890); (900, 901); (903, 903);
    (1155, 1161); (1369, 1369); (1375, 1375); (1425, 1469); (1471, 1471);
    (1473, 1474); (1476, 1477); (1479, 1479); (1524, 1524); (1536, 1541);
    (1552, 1562); (1564, 1564); (1600, 1600); (1611, 1631); (1648, 1648);
    (1750, 1757); (1759, 1768); (1770, 1773); (1807, 1807); (1809, 1809);
    (1840, 1866); (1958, 1968); (2027, 2037); (2042, 2042); (2045, 2045);
    (2070, 2093); (2137, 2139); (2184, 2184); (2192, 2193); (2200, 2207);
    (2249, 2306); (2362, 2362); (2364, 2364); (2369, 2376); (2381, 2381);
    (2385, 2391); (2402, 2403); (2417, 2417); (2433, 2433); (2492, 2492);
    (2497, 2500); (2509, 2509); (2530, 2531); (2558, 2558); (2561, 2562);
    (2620, 2620); (2625, 2626); (2631, 2632); (2635, 2637); (2641, 2641);
    (2672, 2673); (2677, 2677); (2689, 2690); (2748, 2748); (2753, 2757);
    (2759, 2760); (2765, 2765); (2786, 2787); (2810, 2815); (2817, 2817);
    (2876, 2876); (2879, 2879); (2881, 2884); (2893, 2893); (2901, 2902);
    (2914, 2915); (2946, 2946); (3008, 3008); (3021, 3021); (3072, 3072);
    (3076, 3076); (3132, 3132); (3134, 3136); (3142, 3144); (3146, 3149);
    (3157, 3158); (3170, 3171); (3201, 3201); (3260, 3260); (3263, 3263);
    (3270, 3270); (3276, 3277); (3298, 3299); (3328, 3329); (3387, 3388);
    (3393, 3396); (3405, 3405); (3426, 3427); (3457, 3457); (3530, 3530);
    (3538, 3540); (3542, 3542); (3633, 3633); (3636, 3642); (3654, 3662);
    (3761, 3761); (3764, 3772); (3782, 3782); (3784, 3789); (3864, 3865);
    (3893, 3893); (3895, 3895); (3897, 3897); (3953, 3966); (3968, 3972);
    (3974, 3975); (3981, 3991); (3993, 4028); (4038, 4038); (4141, 4144);
    (4146, 4151); (4153, 4154); (4157, 4158); (4184, 4185); (4190, 4192);
    (4209, 4212); (4226, 4226); (4229, 4230); (4237, 4237); (4253, 4253);
    (4348, 4348); (4957, 4959); (5906, 5908); (5938, 5939); (5970, 5971);
    (6002, 6003); (6068, 6069); (6071, 6077); (6086, 6086); (6089, 6099);
    (6103, 6103); (6109, 6109); (6155, 6159); (6211, 6211); (6277, 6278);
    (6313, 6313); (6432, 6434); (6439, 6440); (6450, 6450); (6457, 6459);
    (6679, 6680); (6683, 6683); (6742, 6742); (6744, 6750); (6752, 6752);
    (6754, 6754); (6757, 6764); (6771, 6780); (6783, 6783); (6823, 6823);
    (6832, 6862); (6912, 6915); (6964, 6964); (6966, 6970); (6972, 6972);
    (6978, 6978); (7019, 7027); (7040, 7041); (7074, 7077); (7080, 7081);
    (7083, 7085); (7142, 7142); (7144, 7145); (7149, 7149); (7151, 7153);
    (7212, 7219); (7222, 7223); (7288, 7293); (7376, 7378); (7380, 7392);
    (7394, 7400); (7405, 7405); (7412, 7412); (7416, 7417); (7468, 7530);
    (7544, 7544); (7579, 7679); (8125, 8125); (8127, 8129); (8141, 8143);
    (8157, 8159); (8173, 8175); (8189, 8190); (8203, 8207); (8216, 8217);
    (8228, 8228); (8231, 8231); (8234, 8238); (8288, 8292); (8294, 8303);
    (8305, 8305); (8319, 8319); (8336, 8348); (8400, 8432); (11388, 11389);
    (11503, 11505); (11631, 11631); (11647, 11647); (11744, 11775); (11823, 11823);
    (12293, 12293); (12330, 12333); (12337, 12341); (12347, 12347); (12441, 12446);
    (12540, 12542); (40981, 40981); (42232, 42237); (42508, 42508); (42607, 42610);
    (42612, 42621); (42623, 42623); (42652, 42655); (42736, 42737); (42752, 42785);
    (42864, 42864); (42888, 42890); (42994, 42996); (43000, 43001); (43010, 43010);
    (43014, 43014); (43019, 43019); (43045, 43046); (43052, 43052); (43204, 43205);
    (43232, 43249); (43263, 43263); (43302, 43309); (43335, 43345); (43392, 43394);
    (43443, 43443); (43446, 43449); (43452, 43453); (43471, 43471); (43493, 43494);
    (43561, 43566); (43569, 43570); (43573, 43574); (43587, 43587); (43596, 43596);
    (43632, 43632); (43644, 43644); (43696, 43696); (43698, 43700); (43703, 43704);
    (43710, 43711); (43713, 43713); (43741, 43741); (43756, 43757); (43763, 43764);
    (43766, 43766); (43867, 43871); (43881, 43883); (44005, 44005); (44008, 44008);
    (44013, 44013); (64286, 64286); (64434, 64450); (65024, 65039); (65043, 65043);
    (65056, 65071); (65106, 65106); (65109, 65109); (65279, 65279); (65287, 65287);
    (65294, 65294); (65306, 65306); (65342, 65342); (65344, 65344); (65392, 65392);
    (65438, 65439); (65507, 65507); (65529, 65531); (66045, 66045); (66272, 66272);
    (66422, 66426); (67456, 67461); (67463, 67504); (67506, 67514); (68097, 68099);
    (68101, 68102); (68108, 68111); (68152, 68154); (68159, 68159); (68325, 68326);
    (68900, 68903); (69291, 69292); (69446, 69456); (69506, 69509); (69633, 69633);
    (69688, 69702); (69744, 69744); (69747, 69748); (69759, 69761); (69811, 69814);
    (69817, 69818); (69821, 69821); (69826, 69826); (69837, 69837); (69888, 69890);
    (69927, 69931); (69933, 69940); (70003, 70003); (70016, 70017); (70070, 70078);
    (70089, 70092); (70095, 70095); (70191, 70193); (70196, 70196); (70198, 70199);
    (70206, 70206); (70367, 70367); (70371, 70378); (70400, 70401); (70459, 70460);
    (70464, 70464); (70502, 70508); (70512, 70516); (70712, 70719); (70722, 70724);
    (70726, 70726); (70750, 70750); (70835, 70840); (70842, 70842); (70847, 70848);
    (70850, 70851); (71090, 71093); (71100, 71101); (71103, 71104); (71132, 71133);
    (71219, 71226); (71229, 71229); (71231, 71232); (71339, 71339); (71341, 71341);
    (71344, 71349); (71351, 71351); (71453, 71455); (71458, 71461); (71463, 71467);
    (71727, 71735); (71737, 71738); (71995, 71996); (71998, 71998); (72003, 72003);
    (72148, 72151); (72154, 72155); (72160, 72160); (72193, 72202); (72243, 72248);
    (72251, 72254); (72263, 72263); (72273, 72278); (72281, 72283); (72330, 72342);
    (72344, 72345); (72752, 72758); (72760, 72765); (72767, 72767); (72850, 72871);
    (72874, 72880); (72882, 72883); (72885, 72886); (73009, 73014); (73018, 73018);
    (73020, 73021); (73023, 73029); (73031, 73031); (73104, 73105); (73109, 73109);
    (73111, 73111); (73459, 73460); (78896, 78904); (92912, 92916); (92976, 92982);
    (92992, 92995); (94031, 94031); (94095, 94111); (94176, 94177); (94179, 94180);
    (110576, 110579); (110581, 110587); (110589, 110590); (113821, 113822); (113824, 113827);
    (118528, 118573); (118576, 118598); (119143, 119145); (119155, 119170); (119173, 119179);
    (119210, 119213); (119362, 119364); (121344, 121398); (121403, 121452); (121461, 121461);
    (121476, 121476); (121499, 121503); (121505, 121519); (122880, 122886); (122888, 122904);
    (122907, 122913); (122915, 122916); (122918, 122922); (123184, 123197); (123566, 123566);
    (123628, 123631); (125136, 125142); (125252, 125259); (127995, 127999); (917505, 917505);
    (917536, 917631); (917760, 917999)
  ]%N.

(** The code points with the property [Cased], as ranges. *)
Definition cased_ranges : list (N * N) :=
  [
    (65, 90); (97, 122); (170, 170); (181, 181); (186, 186);
    (192, 214); (216, 246); (248, 442); (444, 447); (452, 659);
    (661, 696); (704, 705); (736, 740); (837, 837); (880, 883);
    (886, 887); (890, 893); (895, 895); (902, 902); (904, 906);
    (908, 908); (910, 929); (931, 1013); (1015, 1153); (1162, 1327);
    (1329, 1366); (1376, 1416); (4256, 4293); (4295, 4295); (4301, 4301);
    (4304, 4346); (4349, 4351); (5024, 5109); (5112, 5117); (7296, 7304);
    (7312, 7354); (7357, 7359); (7424, 7615); (7680, 7957); (7960, 7965);
    (7968, 8005); (8008, 8013); (8016, 8023); (8025, 8025); (8027, 8027);
    (8029, 8029); (8031, 8061); (8064, 8116); (8118, 8124); (8126, 8126);
    (8130, 8132); (8134, 8140); (8144, 8147); (8150, 8155); (8160, 8172);
    (8178, 8180); (8182, 8188); (8305, 8305); (8319, 8319); (8336, 8348);
    (8450, 8450); (8455, 8455); (8458, 8467); (8469, 8469); (8473, 8477);
    (8484, 8484); (8486, 8486); (8488, 8488); (8490, 8493); (8495, 8500);
    (8505, 8505); (8508, 8511); (8517, 8521); (8526, 8526); (8544, 8575);
    (8579, 8580); (9398, 9449); (11264, 11492); (11499, 11502); (11506, 11507);
    (11520, 11557); (11559, 11559); (11565, 11565); (42560, 42605); (42624, 42653);
    (42786, 42887); (42891, 42894); (42896, 42954); (42960, 42961); (42963, 42963);
    (42965, 42969); (42997, 42998); (43000, 43002); (43824, 43866); (43868, 43880);
    (43888, 43967); (64256, 64262); (64275, 64279); (65313, 65338); (65345, 65370);
    (66560, 66639); (66736, 66771); (66776, 66811); (66928, 66938); (66940, 66954);
    (66956, 66962); (66964, 66965); (66967, 66977); (66979, 66993); (66995, 67001);
    (67003, 67004); (67456, 67456); (67459, 67461); (67463, 67504); (67506, 67514);
    (68736, 68786); (68800, 68850); (71840, 71903); (93760, 93823); (119808, 119892);
    (119894, 119964); (119966, 119967); (119970, 119970); (119973, 119974); (119977, 119980);
    (119982, 119993); (119995, 119995); (119997, 120003); (120005, 120069); (120071, 120074);
    (120077, 120084); (120086, 120092); (120094, 120121); (120123, 120126); (120128, 120132);
    (120134, 120134); (120138, 120144); (120146, 120485); (120488, 120512); (120514, 120538);
    (120540, 120570); (120572, 120596); (120598, 120628); (120630, 120654); (120656, 120686);
    (120688, 120712); (120714, 120744); (120746, 120770); (120772, 120779); (122624, 122633);
    (122635, 122654); (125184, 125251); (127280, 127305); (127312, 127337); (127344, 127369)
  ]%N.

Fixpoint in_ranges (c : N) (ranges : list (N * N)) : bool :=
  match ranges with
  | [] => false
  | (lo, hi) :: r =>
      if (c <? lo)%N then false
      else if (c <=? hi)%N then true
      else in_ranges c r
  end.

Fixpoint run_image (c : N) (runs : list (N * N * N * N)) : option N :=
  match runs with
  | [] => None
  | (lo, hi, step, image) :: r =>
      if (c <? lo)%N then None
      else if ((c <=? hi) && ((c - lo) mod step =? 0))%bool%N
           then Some (image + (c - lo))%N
           else run_image c r
  end.

Definition case_ignorable (c : N) : bool := in_ranges c case_ignorable_ranges.

Definition cased (c : N) : bool := in_ranges c cased_ranges.

(** The full lower-case form of one code point.  U+0130 is the only
    one with a form of two code points; U+03A3 is dealt with in
    [PyStr.lower_ucs4]. *)
Definition to_lower_full (c : N) : list N :=
  if (c =? 304)%N then [105; 775]%N
  else match run_image c lower_runs with
       | Some d => [d]
       | None => [c]
       end.

End Unicode.

Module PyStr.

Import Unicode.

Fixpoint skip_ignorable (s : list N) : list N :=
  match s with
  | [] => []
  | c :: r => if case_ignorable c then skip_ignorable r else s
  end.

(** Whether a capital sigma is in final position: the nearest code
    point before it that is not case-ignorable is cased, and the nearest
    such code point after it, if there is one, is not.  [before] is what
    precedes the sigma, nearest first. *)
Definition final_sigma (before after : list N) : bool :=
  match skip_ignorable before with
  | [] => false
  | c :: _ =>
      if cased c then
        match skip_ignorable after with
        | [] => true
        | d :: _ => negb (cased d)
        end
      else false
  end.

(** The lower-case form of the code point [c] standing between
    [before] and [after]. *)
Definition lower_ucs4 (before after : list N) (c : N) : list N :=
  if (c =? 931)%N then [if final_sigma before after then 962 else 963]%N
  else to_lower_full c.

Fixpoint lower_from (before : list N) (s : str) : str :=
  match s with
  | [] => []
  | c :: r => lower_ucs4 before r c ++ lower_from (c :: before) r
  end.

(** [s.lower()] *)
Definition lower (s : str) : str := lower_from [] s.

(** [len(s)] *)
Definition len (s : str) : Z := Z.of_nat (List.length s).

(** [sep.join(parts)] *)
Fixpoint join (sep : str) (parts : list str) : str :=
  match parts with
  | [] => []
  | [x] => x
  | x :: r => x ++ sep ++ join sep r
  end.

End PyStr.

(** ** Python sequences: [len], slices, subscripts, [enumerate] *)

Module PyList.

Section Seq.
Context {A : Type}.

Definition len (l : list A) : Z := Z.of_nat (List.length l).

(** A slice bound is brought into [0 .. n]: a negative bound counts from
    the end, and whatever is still outside is clamped. *)
Definition adjust (n i : Z) : Z :=
  if i <? 0 then Z.max 0 (i + n) else Z.min i n.

(** [l[start:stop]] *)
Definition slice (l : list A) (start stop : Z) : list A :=
  let a := adjust (len l) start in
  let b := adjust (len l) stop in
  firstn (Z.to_nat (b - a)) (skipn (Z.to_nat a) l).

(** [l[:stop]] *)
Definition slice_to (l : list A) (stop : Z) : list A := slice l 0 stop.

(** [enumerate(l)], counting from [k] *)
Fixpoint enumerate_from (k : Z) (l : list A) : list (Z * A) :=
  match l with
  | [] => []
  | x :: r => (k, x) :: enumerate_from (k + 1) r
  end.

Definition enumerate (l : list A) : list (Z * A) := enumerate_from 0 l.

End Seq.

End PyList.

(** ** Exceptions *)

Inductive exn : Type :=
| IndexError.

Inductive result (A : Type) : Type :=
| Ok (a : A)
| Raise (e : exn).
Arguments Ok {A} a.
Arguments Raise {A} e.

Definition bind {A B : Type} (m : result A) (k : A -> result B) : result B :=
  match m with
  | Ok a => k a
  | Raise e => Raise e
  end.

Notation "x <- m ;; k" := (bind m (fun x => k))
  (at level 61, m at next level, right associativity).

(** [l[i]] *)
Definition getitem {A : Type} (l : list A) (i : Z) : result A :=
  let j := if i <? 0 then i + PyList.len l else i in
  if j <? 0 then Raise IndexError
  else match nth_error l (Z.to_nat j) with
       | Some x => Ok x
       | None => Raise IndexError
       end.

(** ** Text before annotation

    What the two [extract_text] functions do to the text of the pages:
    [strip], [join] and the removal of U+200B and U+FEFF. *)

Module PyText.

Definition ustr : Type := list N.

(** The characters [str.strip()] removes: those for which
    [str.isspace()] holds. *)
Definition is_space (c : N) : bool :=
  ((9 <=? c) && (c <=? 13) || (28 <=? c) && (c <=? 31) || (c =? 32)
   || (c =? 133) || (c =? 160) || (c =? 5760)
   || (8192 <=? c) && (c <=? 8202) || (c =? 8232) || (c =? 8233)
   || (c =? 8239) || (c =? 8287) || (c =? 12288))%bool%N.

(** [s.lstrip()] *)
Fixpoint lstrip (s : ustr) : ustr :=
  match s with
  | [] => []
  | c :: r => if is_space c then lstrip r else c :: r
  end.

(** [s.rstrip()] *)
Definition rstrip (s : ustr) : ustr := rev (lstrip (rev s)).

(** [s.strip()] *)
Definition strip (s : ustr) : ustr := rstrip (lstrip s).

(** [sep.join(parts)] *)
Fixpoint join (sep : ustr) (parts : list ustr) : ustr :=
  match parts with
  | [] => []
  | [x] => x
  | x :: r => x ++ sep ++ join sep r
  end.

(** The one-character string [" "]. *)
Definition space : ustr := [32%N].

(** The character class of the pattern: U+200B and U+FEFF. *)
Definition is_zero_width (c : N) : bool := ((c =? 8203) || (c =? 65279))%bool%N.

(** [re.sub] of that class by the empty string. *)
Definition remove_zero_width (s : ustr) : ustr :=
  filter (fun c => negb (is_zero_width c)) s.

End PyText.

(** ** Annotated tokens *)

Record Token : Type := mkToken {
  text : str;
  lemma_ : str;
  pos_ : str;
  is_alpha : bool;
  is_stop : bool
}.

Definition Doc : Type := list Token.

(** ** [collections.Counter] *)

Module Counter.

(** A counter keeps its keys in the order in which they were first
    counted, as a Python [dict] does. *)
Definition t : Type := list (str * Z).

(** [c[k] = c.get(k, 0) + 1] *)
Fixpoint incr (k : str) (c : t) : t :=
  match c with
  | [] => [(k, 1)]
  | (k', v) :: r =>
      if Str.eqb k k' then (k', v + 1) :: r else (k', v) :: incr k r
  end.

(** [Counter(items)] *)
Definition of_list (items : list str) : t :=
  fold_left (fun c k => incr k c) items [].

(** [c[k]] on a counter: [0] for a key that was never counted. *)
Fixpoint get (c : t) (k : str) : Z :=
  match c with
  | [] => 0
  | (k', v) :: r => if Str.eqb k k' then v else get r k
  end.

(** [sorted(..., key=itemgetter(1), reverse=True)]: Python's sort is
    stable, also with [reverse=True], so an entry goes in front of the
    first entry whose count is not larger than its own. *)
Fixpoint insert_desc (e : str * Z) (l : list (str * Z))
    : list (str * Z) :=
  match l with
  | [] => [e]
  | e' :: r =>
      if snd e' <=? snd e then e :: e' :: r else e' :: insert_desc e r
  end.

Definition sorted_desc (l : list (str * Z)) : list (str * Z) :=
  fold_right insert_desc [] l.

(** [c.most_common()] *)
Definition most_common (c : t) : list (str * Z) := sorted_desc c.

End Counter.

(** ** [SFLizer_1_04.py] *)

Module SFLizer.

Import PyStr.

Record Row : Type := mkRow {
  Left : str;
  Keyword : str;
  Right : str
}.

Definition default_window : Z := 5.
Definition default_max_rows : Z := 50.

(** The condition of the comprehension that builds [hits]. *)
Definition is_hit (lemma pos_tag : str) (t : Token) : bool :=
  (Str.eqb (lower (lemma_ t)) (lower lemma)
   && Str.eqb (pos_ t) pos_tag)%bool.

(** [[i for i,t in enumerate(tokens) if ...]] *)
Definition hits (tokens : list Token) (lemma pos_tag : str) : list Z :=
  map fst
    (filter (fun it => is_hit lemma pos_tag (snd it))
       (PyList.enumerate tokens)).

Definition left_tokens (tokens : list Token) (window i : Z) : list Token :=
  PyList.slice tokens (Z.max 0 (i - window)) i.

Definition right_tokens (tokens : list Token) (window i : Z) : list Token :=
  PyList.slice tokens (i + 1) (i + 1 + window).

(** The body of the loop: one concordance row for the hit at [i]. *)
Definition kwic_row (tokens : list Token) (window i : Z) : result Row :=
  let left := join " " (map text (left_tokens tokens window i)) in
  t <- getitem tokens i ;;
  let kw := text t in
  let right := join " " (map text (right_tokens tokens window i)) in
  Ok (mkRow left kw right).

(** The loop [for i in ...: rows.append(...)], started with [rows]. *)
Fixpoint kwic_loop (tokens : list Token) (window : Z)
    (idx : list Z) (rows : list Row) : result (list Row) :=
  match idx with
  | [] => Ok rows
  | i :: rest =>
      r <- kwic_row tokens window i ;;
      kwic_loop tokens window rest (rows ++ [r])
  end.

Definition kwic (doc : Doc) (lemma pos_tag : str)
    (window max_rows : Z) : result (list Row) :=
  let tokens := doc in
  let hits := hits tokens lemma pos_tag in
  kwic_loop tokens window (PyList.slice_to hits max_rows) [].

(** A two-column [DataFrame]: the column names and the records. *)
Record Frame : Type := mkFrame {
  columns : str * str;
  records : list (str * Z)
}.

(** One turn of the loop over [doc]: [items] after looking at [t]. *)
Definition analyze_pos_step (pos_tag : str) (min_len : Z)
    (remove_stop : bool) (items : list str) (t : Token) : list str :=
  if (Str.eqb (pos_ t) pos_tag && is_alpha t)%bool then
    if (remove_stop && is_stop t)%bool then items
    else
      let lemma := lower (lemma_ t) in
      if min_len <=? len lemma then items ++ [lemma] else items
  else items.

Definition analyze_pos_items (doc : Doc) (pos_tag : str) (min_len : Z)
    (remove_stop : bool) : list str :=
  fold_left (analyze_pos_step pos_tag min_len remove_stop) doc [].

Definition default_min_len : Z := 2.
Definition default_remove_stop : bool := true.

Definition analyze_pos (doc : Doc) (pos_tag label : str) (min_len : Z)
    (remove_stop : bool) : Frame :=
  let items := analyze_pos_items doc pos_tag min_len remove_stop in
  let counter := Counter.of_list items in
  mkFrame (label, "Frequency") (Counter.most_common counter).

(** [extract_text]: a page is what its [extract_text()] returns, a
    string or [None]; [x or ""] replaces [None] (and the empty string)
    by the empty string. *)
Definition or_empty (x : option PyText.ustr) : PyText.ustr :=
  match x with
  | Some (c :: r) => c :: r
  | _ => []
  end.

Definition extract_text (pages : list (option PyText.ustr)) : PyText.ustr :=
  let text := PyText.join PyText.space (map or_empty pages) in
  PyText.strip text.

(** [lemma_forms]: [forms] is a [defaultdict(Counter)], kept in the
    order in which its keys were first used. *)
Definition Forms : Type := list (str * Counter.t).

(** [forms[lm][form] += 1] *)
Fixpoint forms_incr (lm form : str) (forms : Forms) : Forms :=
  match forms with
  | [] => [(lm, Counter.incr form [])]
  | (k, ctr) :: r =>
      if Str.eqb lm k then (k, Counter.incr form ctr) :: r
      else (k, ctr) :: forms_incr lm form r
  end.

(** One turn of the first loop: [forms] after looking at [t]. *)
Definition lemma_forms_step (lemmas : list str) (pos_tag : str)
    (forms : Forms) (t : Token) : Forms :=
  if (Str.eqb (pos_ t) pos_tag
      && existsb (Str.eqb (lower (lemma_ t))) lemmas)%bool
  then forms_incr (lower (lemma_ t)) (text t) forms
  else forms.

Record FormRow : Type := mkFormRow {
  Lemma_ : str;
  Form : str;
  Frequency : Z
}.

Definition lemma_forms (doc : Doc) (lemmas : list str)
    (pos_tag : str) : list FormRow :=
  let forms := fold_left (lemma_forms_step lemmas pos_tag) doc [] in
  flat_map
    (fun lc => map (fun e => mkFormRow (fst lc) (fst e) (snd e)) (snd lc))
    forms.

(** [df.head(n)]: the first [n] rows, all but the last [-n] if [n] is
    negative. *)
Definition head (df : Frame) (n : Z) : Frame :=
  mkFrame (columns df) (PyList.slice_to (records df) n).

(** [df.head(top_n)[label].tolist()], the lemmas the page offers. *)
Definition top_lemmas (df : Frame) (top_n : Z) : list str :=
  map fst (records (head df top_n)).

End SFLizer.

(** ** [streamlit_app.py] *)

Module StreamlitApp.

Import PyStr.

(** A Python [dict] literal, in source order. *)
Definition sfl_map : list (str * str) :=
  [ ("do","Material"); ("make","Material"); ("build","Material");
    ("create","Material"); ("use","Material");
    ("support","Material"); ("develop","Material"); ("increase","Material");
    ("reduce","Material"); ("reach","Material");
    ("grow","Material"); ("provide","Material"); ("help","Material");
    ("deliver","Material"); ("implement","Material");
    ("manage","Material"); ("improve","Material"); ("enhance","Material");
    ("construct","Material"); ("invest","Material");
    ("know","Mental"); ("see","Mental"); ("think","Mental");
    ("expect","Mental"); ("believe","Mental"); ("feel","Mental");
    ("understand","Mental"); ("assume","Mental"); ("consider","Mental");
    ("perceive","Mental"); ("realize","Mental");
    ("be","Relational"); ("have","Relational"); ("include","Relational");
    ("remain","Relational");
    ("consist","Relational"); ("represent","Relational");
    ("mean","Relational"); ("equal","Relational");
    ("say","Verbal"); ("report","Verbal"); ("suggest","Verbal");
    ("claim","Verbal"); ("explain","Verbal");
    ("mention","Verbal"); ("highlight","Verbal"); ("state","Verbal");
    ("assert","Verbal"); ("communicate","Verbal");
    ("watch","Behavioral"); ("listen","Behavioral"); ("smile","Behavioral");
    ("cry","Behavioral"); ("breathe","Behavioral");
    ("stare","Behavioral"); ("look","Behavioral"); ("laugh","Behavioral");
    ("observe","Behavioral"); ("shrug","Behavioral");
    ("exist","Existential"); ("arise","Existential");
    ("appear","Existential"); ("emerge","Existential");
    ("occur","Existential"); ("happen","Existential");
    ("prevail","Existential") ].

(** [d.get(k, default)] for a dict written as a literal, read from left
    to right: of two entries with one key the dict keeps the later one. *)
Fixpoint dict_get (d : list (str * str)) (k default : str)
    : str :=
  match d with
  | [] => default
  | (k', v) :: r => dict_get r k (if Str.eqb k k' then v else default)
  end.

(** [sfl_map.get(lemma, "Material")], the lookup of [analyze_text]. *)
Definition sfl_process (lemma : str) : str :=
  dict_get sfl_map lemma "Material".

(** The six process categories. *)
Definition categories : list str :=
  [ "Material"; "Mental"; "Relational"; "Verbal"; "Behavioral";
    "Existential" ].

(** The condition of the comprehension that builds [verbs]. *)
Definition is_verb (t : Token) : bool :=
  (existsb (Str.eqb (pos_ t)) ["VERB"; "AUX"] && is_alpha t)%bool.

(** [verbs]: pairs of lower-cased surface form and lower-cased lemma. *)
Definition verbs (doc : Doc) : list (str * str) :=
  map (fun t => (lower (text t), lower (lemma_ t))) (filter is_verb doc).

Record VerbRow : Type := mkVerbRow {
  Verb : str;
  Frequency : Z;
  SFL_Process : str
}.

(** The list [rows] of [analyze_text], one row per counted lemma, before
    the frame is sorted by [DataFrame.sort_values]. *)
Definition analyze_text_rows (doc : Doc) : list VerbRow :=
  let lemma_freq := Counter.of_list (map snd (verbs doc)) in
  map (fun e => mkVerbRow (fst e) (snd e) (sfl_process (fst e))) lemma_freq.

(** The category [analyze_text] gives to a token's lemma: the lemma is
    lower-cased when [verbs] is built and looked up afterwards. *)
Definition classify (lemma_ : str) : str :=
  sfl_process (lower lemma_).

(** [extract_text]: a page is the string its [get_text()] returns. *)
Definition extract_text (pages : list PyText.ustr) : PyText.ustr :=
  let text := fold_left (fun text page => text ++ page) pages [] in
  PyText.remove_zero_width text.

(** The last step of [analyze_text],
    [pd.DataFrame(rows).sort_values(by="Frequency", ascending=False)].
    A frame built from no rows has no columns, and sorting it by
    ["Frequency"] raises [KeyError]. *)
Definition analyze_text_raises (doc : Doc) : Prop :=
  analyze_text_rows doc = [].

(** Otherwise the rows come back reordered.  The default sort of pandas
    is not stable, so the order among rows of one frequency is left
    open. *)
Definition analyze_text_returns (doc : Doc) (df : list VerbRow) : Prop :=
  analyze_text_rows doc <> []
  /\ Permutation df (analyze_text_rows doc)
  /\ StronglySorted (fun a b => Frequency b <= Frequency a) df.

End StreamlitApp.

(** * Definitions for the statements *)

(** ** Lower case *)

Module Casing.

Import Unicode PyStr.

(** A code point that [lower] leaves as it is, wherever it stands. *)
Definition settled (c : N) : bool :=
  (match to_lower_full c with
   | [d] => (d =? c)%N
   | _ => false
   end && negb (c =? 931)%N)%bool.

(** The code points from [lo] to [hi]. *)
Definition code_points (lo hi : N) : list N :=
  map N.of_nat (seq (N.to_nat lo) (N.to_nat (hi - lo) + 1)).

Definition run_settled (run : N * N * N * N) : bool :=
  let '(lo, hi, step, image) := run in
  forallb
    (fun c => if ((c - lo) mod step =? 0)%N then settled (image + (c - lo))%N
              else true)
    (code_points lo hi).

(** What [lower] does to an ASCII code point: [A]..[Z] go to [a]..[z],
    the others stay. *)
Definition ascii_lower (c : N) : N :=
  if ((65 <=? c) && (c <=? 90))%bool%N then (c + 32)%N else c.

(** The code point [a] is [b], or the capital of the small ASCII letter
    [b]. *)
Definition capital_or_same (a b : N) : Prop :=
  a = b \/ ((97 <= b)%N /\ (b <= 122)%N /\ (a + 32)%N = b).

(** [s] is [k] with some of its letters written as capitals. *)
Definition capitalised (s k : str) : Prop := Forall2 capital_or_same s k.

(** All code points of [k] are small ASCII letters. *)
Definition small_letters (k : str) : bool :=
  forallb (fun c => ((97 <=? c) && (c <=? 122))%bool%N) k.

End Casing.

(** ** Order of two elements in a list *)

Module Order.

Section Precedes.
Context {A : Type}.

(** [x] stands somewhere in [l] and [y] somewhere after it. *)
Inductive precedes (x y : A) : list A -> Prop :=
| precedes_here l : In y l -> precedes x y (x :: l)
| precedes_later z l : precedes x y l -> precedes x y (z :: l).

End Precedes.

End Order.

(** ** Concordance *)

Module Concordance.

Import PyStr PyList SFLizer.

(** The hits together with the tokens found there. *)
Definition hit_pairs (tokens : list Token) (lemma pos_tag : str)
    : list (Z * Token) :=
  filter (fun it => is_hit lemma pos_tag (snd it)) (enumerate tokens).

(** The row the loop body builds at position [fst it], where the token
    [snd it] stands. *)
Definition row_of (tokens : list Token) (window : Z) (it : Z * Token) : Row :=
  mkRow (join " " (map text (left_tokens tokens window (fst it))))
        (text (snd it))
        (join " " (map text (right_tokens tokens window (fst it)))).

(** The sentence of the specification's example, as spaCy annotates it. *)
Definition the_cat_runs : Doc :=
  [ mkToken "The" "the" "DET" true true;
    mkToken "cat" "cat" "NOUN" true false;
    mkToken "runs" "run" "VERB" true false;
    mkToken "fast" "fast" "ADV" true false;
    mkToken "now" "now" "ADV" true true ].

(** A document in which the lemma [run] occurs three times as a verb. *)
Definition run_thrice : Doc :=
  [ mkToken "Run" "run" "VERB" true false;
    mkToken "dogs" "dog" "NOUN" true false;
    mkToken "ran" "Run" "VERB" true false;
    mkToken "a" "a" "DET" true true;
    mkToken "run" "run" "NOUN" true false;
    mkToken "running" "run" "VERB" true false ].

End Concordance.

(** ** Tables of counts *)

Module Tally.

(** The sum of the counts of a table. *)
Definition total (c : list (str * Z)) : Z :=
  fold_right (fun e s => snd e + s) 0 c.

Definition keys (c : list (str * Z)) : list str := map fst c.

(** How often [k] occurs in [items]. *)
Definition occurrences (k : str) (items : list str) : Z :=
  PyList.len (filter (Str.eqb k) items).

(** The order of [most_common]: the larger count first. *)
Definition by_count_desc (a b : str * Z) : Prop := snd b <= snd a.

End Tally.

(** ** The filters of the frequency aggregator *)

Module Filters.

Import PyStr.

(** The three filters of the specification: the tag is the target tag,
    the token is alphabetic and, if stop words are to be left out, it is
    not a stop word. *)
Definition passes_filters (pos_tag : str) (remove_stop : bool)
    (t : Token) : bool :=
  (Str.eqb (pos_ t) pos_tag && is_alpha t
   && negb (remove_stop && is_stop t))%bool.

(** The lower-cased lemma has at least [min_len] characters. *)
Definition long_enough (min_len : Z) (t : Token) : bool :=
  min_len <=? PyStr.len (lower (lemma_ t)).

(** A qualifying token passes the filters and is long enough. *)
Definition qualifies (pos_tag : str) (min_len : Z) (remove_stop : bool)
    (t : Token) : bool :=
  (passes_filters pos_tag remove_stop t && long_enough min_len t)%bool.

(** The lemma under which a token is counted. *)
Definition key (t : Token) : str := lower (lemma_ t).

End Filters.

(** ** The process table *)

Module Lookup.

Import PyStr StreamlitApp.

(** No key is written twice. *)
Fixpoint distinct (l : list str) : bool :=
  match l with
  | [] => true
  | x :: r => (negb (existsb (Str.eqb x) r) && distinct r)%bool
  end.

End Lookup.

(** ** Readings of the tables *)

Module Readings.

(** The count a frequency table lists for a lemma, [0] if it lists
    none. *)
Definition frequency_of (df : SFLizer.Frame) (lemma : str) : Z :=
  Counter.get (SFLizer.records df) lemma.

(** The sum of the [Frequency] column of a word-form table. *)
Definition forms_total (rows : list SFLizer.FormRow) : Z :=
  fold_right (fun r s => SFLizer.Frequency r + s) 0 rows.

(** The sum of the [Frequency] column of a verb table. *)
Definition verbs_total (rows : list StreamlitApp.VerbRow) : Z :=
  fold_right (fun r s => StreamlitApp.Frequency r + s) 0 rows.

(** The tokens [lemma_forms] counts under the lemma [lm]: the tag is the
    target tag and the lower-cased lemma is [lm]. *)
Definition has_lemma (pos_tag lm : str) (t : Token) : bool :=
  (Str.eqb (pos_ t) pos_tag
   && Str.eqb (PyStr.lower (lemma_ t)) lm)%bool.

(** A text of white space only. *)
Definition blank (s : PyText.ustr) : Prop :=
  Forall (fun c => PyText.is_space c = true) s.

(** The tokens [lemma_forms] looks at: the tag is the target tag and the
    lower-cased lemma is one of [lemmas]. *)
Definition selected (lemmas : list str) (pos_tag : str) (t : Token)
    : bool :=
  (Str.eqb (pos_ t) pos_tag
   && existsb (Str.eqb (PyStr.lower (lemma_ t))) lemmas)%bool.

(** [forms[lm]] read without creating it: the empty counter if [lm] is
    not a key. *)
Fixpoint forms_get (forms : SFLizer.Forms) (lm : str) : Counter.t :=
  match forms with
  | [] => []
  | (k, ctr) :: r => if Str.eqb lm k then ctr else forms_get r lm
  end.

(** The sum of all counts of [forms]. *)
Definition forms_sum (forms : SFLizer.Forms) : Z :=
  fold_right (fun lc s => Tally.total (snd lc) + s) 0 forms.

(** The rows written for [forms]. *)
Definition forms_rows (forms : SFLizer.Forms) : list SFLizer.FormRow :=
  flat_map
    (fun lc => map (fun e => SFLizer.mkFormRow (fst lc) (fst e) (snd e))
                 (snd lc))
    forms.

(** [forms] after the first loop of [lemma_forms]. *)
Definition forms_of (doc : Doc) (lemmas : list str) (pos_tag : str)
    : SFLizer.Forms :=
  fold_left (SFLizer.lemma_forms_step lemmas pos_tag) doc [].

End Readings.

(** * Properties *)

(** ** Equality of strings *)

Module StrFacts.

Lemma eqb_eq (a b : str) : Str.eqb a b = true <-> a = b.
Proof.
  revert b. induction a as [|x a IH]; intros [|y b]; simpl;
    try (split; [discriminate|discriminate]); [tauto|].
  rewrite andb_true_iff, N.eqb_eq, IH. split.
  - intros [-> ->]. reflexivity.
  - intros E. inversion E. tauto.
Qed.

Lemma eqb_refl (a : str) : Str.eqb a a = true.
Proof. now apply eqb_eq. Qed.

Lemma eqb_sym (a b : str) : Str.eqb a b = Str.eqb b a.
Proof.
  destruct (Str.eqb a b) eqn:E1, (Str.eqb b a) eqn:E2; try reflexivity.
  - apply eqb_eq in E1. subst. now rewrite eqb_refl in E2.
  - apply eqb_eq in E2. subst. now rewrite eqb_refl in E1.
Qed.

Lemma str_dec (a b : str) : {a = b} + {a <> b}.
Proof. apply (list_eq_dec N.eq_dec). Qed.

End StrFacts.

(** ** Lower-casing *)

Module PyStrFacts.

Import Unicode PyStr Casing.

Lemma code_points_In lo hi c :
  (lo <= c <= hi)%N -> In c (code_points lo hi).
Proof.
  intros H. unfold code_points. apply in_map_iff.
  exists (N.to_nat c). split; [apply N2Nat.id|]. apply in_seq. lia.
Qed.

Lemma lower_runs_settled : forallb run_settled lower_runs = true.
Proof. vm_compute. reflexivity. Qed.

Lemma run_image_settled c d :
  run_image c lower_runs = Some d -> settled d = true.
Proof.
  pose proof lower_runs_settled as Hall. rewrite forallb_forall in Hall.
  revert Hall. generalize lower_runs as runs.
  induction runs as [|[[[lo hi] step] image] runs IH]; simpl; intros Hall H.
  - discriminate.
  - destruct (c <? lo)%N eqn:Elo; [discriminate|].
    destruct ((c <=? hi)%N && ((c - lo) mod step =? 0)%N)%bool eqn:E.
    + inversion H; subst d. apply andb_true_iff in E. destruct E as [Ehi Em].
      apply N.ltb_ge in Elo. apply N.leb_le in Ehi.
      specialize (Hall (lo, hi, step, image) (or_introl eq_refl)).
      unfold run_settled in Hall. rewrite forallb_forall in Hall.
      specialize (Hall c (code_points_In lo hi c (conj Elo Ehi))).
      now rewrite Em in Hall.
    + apply IH; [|exact H]. intros run Hrun. apply Hall. now right.
Qed.

Lemma to_lower_full_settled c :
  c <> 931%N -> Forall (fun d => settled d = true) (to_lower_full c).
Proof.
  intros Hc. unfold to_lower_full.
  destruct (c =? 304)%N eqn:E304.
  - repeat constructor.
  - destruct (run_image c lower_runs) as [d|] eqn:Er.
    + constructor; [|constructor]. now apply (run_image_settled c).
    + constructor; [|constructor]. unfold settled, to_lower_full.
      rewrite E304, Er, N.eqb_refl. simpl.
      apply N.eqb_neq in Hc. now rewrite Hc.
Qed.

Lemma lower_ucs4_settled before after c :
  Forall (fun d => settled d = true) (lower_ucs4 before after c).
Proof.
  unfold lower_ucs4. destruct (c =? 931)%N eqn:E.
  - destruct (final_sigma before after); repeat constructor.
  - apply to_lower_full_settled. now apply N.eqb_neq.
Qed.

Lemma lower_from_settled before s :
  Forall (fun d => settled d = true) (lower_from before s).
Proof.
  revert before. induction s as [|c r IH]; intros before; simpl.
  - constructor.
  - apply Forall_app. split; [apply lower_ucs4_settled|apply IH].
Qed.

Lemma settled_lower_ucs4 before after c :
  settled c = true -> lower_ucs4 before after c = [c].
Proof.
  unfold settled, lower_ucs4. rewrite andb_true_iff, negb_true_iff.
  intros [Hd Hs]. rewrite Hs.
  destruct (to_lower_full c) as [|d [|e l]]; try discriminate.
  apply N.eqb_eq in Hd. now subst d.
Qed.

Lemma settled_lower_from before s :
  Forall (fun d => settled d = true) s -> lower_from before s = s.
Proof.
  intros H. revert before. induction H as [|c r Hc _ IH]; intros before.
  - reflexivity.
  - simpl. rewrite (settled_lower_ucs4 _ _ _ Hc), IH. reflexivity.
Qed.

(** Lower-casing twice is lower-casing once. *)
Lemma lower_idem (s : str) : lower (lower s) = lower s.
Proof.
  unfold lower. apply settled_lower_from, lower_from_settled.
Qed.

Lemma lower_ucs4_ascii before after c :
  (c < 128)%N -> lower_ucs4 before after c = [ascii_lower c].
Proof.
  intros Hc.
  assert (Hall : forallb
                   (fun c => Str.eqb (lower_ucs4 [] [] c) [ascii_lower c])
                   (code_points 0 127) = true)
    by (vm_compute; reflexivity).
  rewrite forallb_forall in Hall.
  specialize (Hall c (code_points_In 0 127 c ltac:(lia))).
  apply StrFacts.eqb_eq in Hall. unfold lower_ucs4 in *.
  destruct (c =? 931)%N eqn:E; [apply N.eqb_eq in E; lia|exact Hall].
Qed.

Lemma lower_from_ascii before s :
  Forall (fun c => (c < 128)%N) s -> lower_from before s = map ascii_lower s.
Proof.
  intros H. revert before. induction H as [|c r Hc _ IH]; intros before.
  - reflexivity.
  - simpl. now rewrite (lower_ucs4_ascii _ _ _ Hc), IH.
Qed.

End PyStrFacts.

(** ** Slices and [enumerate] *)

Module PyListFacts.

Import PyList.

Section Facts.
Context {A : Type}.
Implicit Types (l : list A) (i k n : Z).

Lemma len_nonneg l : 0 <= len l.
Proof. unfold len. lia. Qed.

Lemma len_app l1 l2 : len (l1 ++ l2) = len l1 + len l2.
Proof. unfold len. rewrite length_app. lia. Qed.

Lemma adjust_range n i : 0 <= n -> 0 <= adjust n i <= n.
Proof.
  intros Hn. unfold adjust. destruct (i <? 0) eqn:E.
  - apply Z.ltb_lt in E. lia.
  - apply Z.ltb_ge in E. lia.
Qed.

Lemma adjust_inside n i : 0 <= i <= n -> adjust n i = i.
Proof.
  intros H. unfold adjust. destruct (i <? 0) eqn:E.
  - apply Z.ltb_lt in E. lia.
  - lia.
Qed.

(** Whatever the bounds, a slice is a contiguous piece of the list. *)
Lemma slice_piece l start stop :
  exists a b, l = a ++ slice l start stop ++ b
              /\ len a = adjust (len l) start.
Proof.
  unfold slice.
  set (x := adjust (len l) start). set (y := adjust (len l) stop).
  exists (firstn (Z.to_nat x) l),
         (skipn (Z.to_nat (y - x)) (skipn (Z.to_nat x) l)).
  split.
  - now rewrite firstn_skipn, firstn_skipn.
  - pose proof (adjust_range (len l) start (len_nonneg l)) as Hx.
    fold x in Hx. unfold len in *. rewrite length_firstn. lia.
Qed.

Lemma slice_inside l start stop :
  0 <= start <= stop -> stop <= len l ->
  slice l start stop
  = firstn (Z.to_nat (stop - start)) (skipn (Z.to_nat start) l).
Proof.
  intros H1 H2. unfold slice.
  rewrite !adjust_inside by lia. reflexivity.
Qed.

Lemma slice_to_firstn l stop :
  slice_to l stop = firstn (Z.to_nat (adjust (len l) stop)) l.
Proof.
  unfold slice_to, slice.
  rewrite (adjust_inside _ 0) by (pose proof (len_nonneg l); lia).
  simpl. now rewrite Z.sub_0_r.
Qed.

Lemma slice_to_nonneg l stop :
  0 <= stop -> slice_to l stop = firstn (Z.to_nat stop) l.
Proof.
  intros H. rewrite slice_to_firstn.
  unfold adjust. destruct (stop <? 0) eqn:E.
  - apply Z.ltb_lt in E. lia.
  - destruct (Z.le_ge_cases stop (len l)).
    + now rewrite Z.min_l.
    + rewrite Z.min_r by assumption. unfold len in *.
      rewrite Nat2Z.id, firstn_all. symmetry. apply firstn_all2. lia.
Qed.

Lemma enumerate_from_snd k l : map snd (enumerate_from k l) = l.
Proof.
  revert k. induction l as [|x r IH]; intros k; simpl.
  - reflexivity.
  - now rewrite IH.
Qed.

Lemma enumerate_from_In k l i x :
  In (i, x) (enumerate_from k l) <->
  k <= i /\ nth_error l (Z.to_nat (i - k)) = Some x.
Proof.
  revert k. induction l as [|y r IH]; intros k; simpl.
  - split; [tauto|]. intros [_ H]. now destruct (Z.to_nat (i - k)).
  - rewrite IH. split.
    + intros [H|[H1 H2]].
      * inversion H; subst. split; [lia|]. now rewrite Z.sub_diag.
      * split; [lia|]. replace (i - k) with (Z.succ (i - (k + 1))) by lia.
        rewrite Z2Nat.inj_succ by lia. exact H2.
    + intros [H1 H2]. destruct (Z.eq_dec i k) as [->|Hne].
      * rewrite Z.sub_diag in H2. simpl in H2. left. congruence.
      * right. split; [lia|].
        replace (i - k) with (Z.succ (i - (k + 1))) in H2 by lia.
        rewrite Z2Nat.inj_succ in H2 by lia. exact H2.
Qed.

Lemma enumerate_In l i x :
  In (i, x) (enumerate l) <->
  0 <= i /\ nth_error l (Z.to_nat i) = Some x.
Proof.
  unfold enumerate. rewrite enumerate_from_In. now rewrite Z.sub_0_r.
Qed.

Lemma filter_enumerate_from_snd (p : A -> bool) k l :
  map snd (filter (fun it => p (snd it)) (enumerate_from k l)) = filter p l.
Proof.
  revert k. induction l as [|x r IH]; intros k; simpl.
  - reflexivity.
  - destruct (p x); simpl; now rewrite IH.
Qed.

Lemma filter_enumerate_from_sorted (p : A -> bool) k l :
  let idx := map fst (filter (fun it => p (snd it)) (enumerate_from k l)) in
  StronglySorted Z.lt idx /\ Forall (fun i => k <= i) idx.
Proof.
  revert k. induction l as [|x r IH]; intros k; simpl.
  - split; constructor.
  - destruct (IH (k + 1)) as [Hs Hk]. cbv zeta in *.
    assert (Hk' : Forall (fun i => k < i)
              (map fst (filter (fun it => p (snd it))
                          (enumerate_from (k + 1) r)))).
    { eapply Forall_impl; [|exact Hk]. simpl. intros; lia. }
    destruct (p x); simpl.
    + split.
      * constructor; assumption.
      * constructor; [lia|]. eapply Forall_impl; [|exact Hk'].
        simpl. intros; lia.
    + split; [assumption|]. eapply Forall_impl; [|exact Hk'].
      simpl. intros; lia.
Qed.

End Facts.

Lemma slice_map {A B : Type} (f : A -> B) (l : list A) start stop :
  slice (map f l) start stop = map f (slice l start stop).
Proof.
  unfold slice, len. rewrite length_map.
  now rewrite skipn_map, firstn_map.
Qed.

End PyListFacts.

(** ** The concordance extractor *)

Module KwicFacts.

Import PyStr PyList PyListFacts SFLizer Concordance.

Lemma is_hit_iff lemma pos_tag t :
  is_hit lemma pos_tag t = true <->
  lower (lemma_ t) = lower lemma /\ pos_ t = pos_tag.
Proof.
  unfold is_hit. rewrite andb_true_iff, !StrFacts.eqb_eq. tauto.
Qed.

Lemma hits_pairs tokens lemma pos_tag :
  hits tokens lemma pos_tag = map fst (hit_pairs tokens lemma pos_tag).
Proof. reflexivity. Qed.

Lemma hit_pairs_snd tokens lemma pos_tag :
  map snd (hit_pairs tokens lemma pos_tag)
  = filter (is_hit lemma pos_tag) tokens.
Proof. apply filter_enumerate_from_snd. Qed.

Lemma hits_length tokens lemma pos_tag :
  List.length (hits tokens lemma pos_tag)
  = List.length (filter (is_hit lemma pos_tag) tokens).
Proof.
  rewrite <- hit_pairs_snd, hits_pairs. now rewrite !length_map.
Qed.

Lemma hits_sorted tokens lemma pos_tag :
  StronglySorted Z.lt (hits tokens lemma pos_tag).
Proof.
  apply (filter_enumerate_from_sorted (is_hit lemma pos_tag) 0 tokens).
Qed.

Lemma hit_pairs_In tokens lemma pos_tag i t :
  In (i, t) (hit_pairs tokens lemma pos_tag) <->
  0 <= i /\ nth_error tokens (Z.to_nat i) = Some t
  /\ is_hit lemma pos_tag t = true.
Proof.
  unfold hit_pairs. rewrite filter_In, enumerate_In. simpl. tauto.
Qed.

Lemma hits_In tokens lemma pos_tag i :
  In i (hits tokens lemma pos_tag) <->
  exists t, 0 <= i /\ nth_error tokens (Z.to_nat i) = Some t
            /\ lower (lemma_ t) = lower lemma /\ pos_ t = pos_tag.
Proof.
  rewrite hits_pairs, in_map_iff. split.
  - intros [[j t] [Hj Hin]]. simpl in Hj. subst j.
    apply hit_pairs_In in Hin. rewrite is_hit_iff in Hin. now exists t.
  - intros [t H]. exists (i, t). split; [reflexivity|].
    apply hit_pairs_In. rewrite is_hit_iff. exact H.
Qed.

Lemma nth_error_range {A : Type} (l : list A) i x :
  0 <= i -> nth_error l (Z.to_nat i) = Some x -> 0 <= i < len l.
Proof.
  intros H0 H. split; [exact H0|].
  assert (Hlt : (Z.to_nat i < List.length l)%nat).
  { apply nth_error_Some. congruence. }
  unfold len. lia.
Qed.

Lemma getitem_nth {A : Type} (l : list A) i x :
  0 <= i -> nth_error l (Z.to_nat i) = Some x -> getitem l i = Ok x.
Proof.
  intros H0 H. unfold getitem.
  destruct (i <? 0) eqn:E; [apply Z.ltb_lt in E; lia|].
  now rewrite E, H.
Qed.

Lemma kwic_row_ok tokens window i t :
  0 <= i -> nth_error tokens (Z.to_nat i) = Some t ->
  kwic_row tokens window i = Ok (row_of tokens window (i, t)).
Proof.
  intros H0 H. unfold kwic_row. now rewrite (getitem_nth _ _ _ H0 H).
Qed.

Lemma kwic_loop_ok tokens window (sel : list (Z * Token)) rows :
  Forall (fun it => 0 <= fst it
                    /\ nth_error tokens (Z.to_nat (fst it)) = Some (snd it))
         sel ->
  kwic_loop tokens window (map fst sel) rows
  = Ok (rows ++ map (row_of tokens window) sel).
Proof.
  intros H. revert rows. induction H as [|[i t] sel [H0 Hn] _ IH]; intros rows.
  - simpl. now rewrite app_nil_r.
  - simpl in *. rewrite (kwic_row_ok _ _ _ _ H0 Hn). simpl.
    rewrite IH, <- app_assoc. reflexivity.
Qed.

Lemma In_firstn {A : Type} (k : nat) (l : list A) x :
  In x (firstn k l) -> In x l.
Proof.
  intros H. rewrite <- (firstn_skipn k l). apply in_or_app. now left.
Qed.

Lemma firstn_length_firstn {A : Type} (k : nat) (l : list A) :
  firstn (List.length (firstn k l)) l = firstn k l.
Proof.
  rewrite length_firstn. destruct (Nat.le_ge_cases k (List.length l)).
  - now rewrite Nat.min_l.
  - rewrite Nat.min_r by assumption.
    rewrite firstn_all. symmetry. now apply firstn_all2.
Qed.

(** What [kwic] returns: one row for each of the hits selected by
    [hits[:max_rows]], and those are a prefix of the hits. *)
Lemma kwic_rows doc lemma pos_tag window max_rows :
  exists sel,
    kwic doc lemma pos_tag window max_rows = Ok (map (row_of doc window) sel)
    /\ sel = slice_to (hit_pairs doc lemma pos_tag) max_rows
    /\ map fst sel = firstn (List.length sel) (hits doc lemma pos_tag)
    /\ Forall (fun it => 0 <= fst it
                 /\ nth_error doc (Z.to_nat (fst it)) = Some (snd it)
                 /\ is_hit lemma pos_tag (snd it) = true) sel.
Proof.
  exists (slice_to (hit_pairs doc lemma pos_tag) max_rows).
  assert (HF : Forall (fun it => 0 <= fst it
                 /\ nth_error doc (Z.to_nat (fst it)) = Some (snd it)
                 /\ is_hit lemma pos_tag (snd it) = true)
             (slice_to (hit_pairs doc lemma pos_tag) max_rows)).
  { rewrite slice_to_firstn. apply Forall_forall. intros [i t] Hin.
    apply In_firstn in Hin. now apply hit_pairs_In in Hin. }
  split; [|split; [reflexivity|split; [|exact HF]]].
  - unfold kwic. rewrite hits_pairs. unfold slice_to.
    rewrite slice_map. apply (kwic_loop_ok doc window _ []).
    eapply Forall_impl; [|exact HF]. simpl. tauto.
  - rewrite hits_pairs, slice_to_firstn, <- firstn_map.
    rewrite <- (length_map fst), <- firstn_map.
    symmetry. apply firstn_length_firstn.
Qed.

Lemma Forall2_map_both {A B C : Type} (P : B -> C -> Prop)
    (f : A -> B) (g : A -> C) (l : list A) :
  Forall (fun x => P (f x) (g x)) l -> Forall2 P (map f l) (map g l).
Proof.
  induction 1; simpl; constructor; assumption.
Qed.

(** A property of every row and the position it was built at. *)
Lemma kwic_each_row (P : Row -> Z -> Prop) doc lemma pos_tag window max_rows :
  (forall i t, 0 <= i -> nth_error doc (Z.to_nat i) = Some t ->
               is_hit lemma pos_tag t = true ->
               P (row_of doc window (i, t)) i) ->
  exists rows,
    kwic doc lemma pos_tag window max_rows = Ok rows
    /\ Forall2 P rows (firstn (List.length rows) (hits doc lemma pos_tag)).
Proof.
  intros HP.
  destruct (kwic_rows doc lemma pos_tag window max_rows)
    as (sel & Hk & _ & Hfst & HF).
  exists (map (row_of doc window) sel). split; [exact Hk|].
  rewrite length_map, <- Hfst. apply Forall2_map_both.
  eapply Forall_impl; [|exact HF]. intros [i t]. simpl.
  intros (H0 & Hn & Hh). now apply HP.
Qed.

End KwicFacts.

(** ** Concordance: the properties *)

Module Kwic.

Import PyStr PyList PyListFacts SFLizer Concordance KwicFacts.

Lemma slice_clip {A : Type} (l : list A) start stop :
  0 <= start <= len l -> 0 <= stop ->
  slice l start stop
  = firstn (Z.to_nat (Z.min stop (len l) - start)) (skipn (Z.to_nat start) l).
Proof.
  intros H1 H2. unfold slice. rewrite (adjust_inside _ start) by lia.
  unfold adjust. destruct (stop <? 0) eqn:E.
  - apply Z.ltb_lt in E. lia.
  - reflexivity.
Qed.

Lemma len_firstn_skipn {A : Type} (l : list A) a k :
  0 <= a -> 0 <= k -> a + k <= len l ->
  len (firstn (Z.to_nat k) (skipn (Z.to_nat a) l)) = k.
Proof.
  intros Ha Hk H. unfold len in *. rewrite length_firstn, length_skipn. lia.
Qed.

Lemma left_tokens_clip doc window i :
  0 <= window -> 0 <= i < len doc ->
  left_tokens doc window i
  = firstn (Z.to_nat (Z.min window i))
      (skipn (Z.to_nat (i - Z.min window i)) doc).
Proof.
  intros Hw Hi. unfold left_tokens.
  rewrite slice_inside by lia.
  replace (Z.max 0 (i - window)) with (i - Z.min window i) by lia.
  f_equal. lia.
Qed.

Lemma right_tokens_clip doc window i :
  0 <= window -> 0 <= i < len doc ->
  right_tokens doc window i
  = firstn (Z.to_nat (Z.min window (len doc - 1 - i)))
      (skipn (Z.to_nat (i + 1)) doc).
Proof.
  intros Hw Hi. unfold right_tokens.
  rewrite slice_clip by lia. f_equal. lia.
Qed.

(** The left context is an end piece of what stands before position
    [i], for every window. *)
Lemma left_tokens_suffix (pre post : list Token) t window :
  exists a, pre = a ++ left_tokens (pre ++ t :: post) window (len pre).
Proof.
  unfold left_tokens, slice.
  set (doc := pre ++ t :: post).
  assert (Hn : len doc = len pre + 1 + len post).
  { unfold doc. rewrite len_app. unfold len. simpl List.length. lia. }
  pose proof (len_nonneg pre) as Hp. pose proof (len_nonneg post) as Hq.
  rewrite (adjust_inside _ (len pre)) by lia.
  set (s := adjust (len doc) (Z.max 0 (len pre - window))).
  assert (Hs : 0 <= s).
  { apply adjust_range. lia. }
  destruct (Z.le_gt_cases (len pre) s) as [Hge|Hlt].
  - exists pre. replace (Z.to_nat (len pre - s)) with 0%nat by lia.
    simpl. now rewrite app_nil_r.
  - exists (firstn (Z.to_nat s) pre). unfold doc.
    rewrite skipn_app, firstn_app.
    replace (Z.to_nat s - List.length pre)%nat with 0%nat
      by (unfold len in *; lia).
    rewrite length_skipn.
    replace (Z.to_nat (len pre - s) - (List.length pre - Z.to_nat s))%nat
      with 0%nat by (unfold len in *; lia).
    simpl. rewrite app_nil_r.
    rewrite (firstn_all2 (n := Z.to_nat (len pre - s)))
      by (rewrite length_skipn; unfold len in *; lia).
    now rewrite firstn_skipn.
Qed.

(** The right context is a front piece of what stands after position
    [i], for every window. *)
Lemma right_tokens_prefix (pre post : list Token) t window :
  exists b, post = right_tokens (pre ++ t :: post) window (len pre) ++ b.
Proof.
  unfold right_tokens, slice.
  set (doc := pre ++ t :: post).
  assert (Hn : len doc = len pre + 1 + len post).
  { unfold doc. rewrite len_app. unfold len. simpl List.length. lia. }
  pose proof (len_nonneg pre) as Hp. pose proof (len_nonneg post) as Hq.
  rewrite (adjust_inside _ (len pre + 1)) by lia.
  set (k := Z.to_nat (adjust (len doc) (len pre + 1 + window)
                      - (len pre + 1))).
  assert (Hskip : skipn (Z.to_nat (len pre + 1)) doc = post).
  { unfold doc.
    replace (Z.to_nat (len pre + 1)) with (List.length pre + 1)%nat
      by (unfold len; lia).
    rewrite skipn_app.
    replace (List.length pre + 1 - List.length pre)%nat with 1%nat by lia.
    rewrite skipn_all2 by lia. reflexivity. }
  rewrite Hskip. exists (skipn k post). now rewrite firstn_skipn.
Qed.

(** C1, as the specification words it: one row whose left context is
    ["cat"].  On the annotated sentence the extractor does not return
    such a row: with a window of two the left context holds the two
    preceding tokens. *)
Lemma kwic_example_left_is_not_cat :
  ~ (exists r,
       kwic the_cat_runs "run" "VERB" 2 default_max_rows = Ok [r]
       /\ Left r = "cat" /\ Keyword r = "runs" /\ Right r = "fast now").
Proof.
  intros (r & H & Hl & _). vm_compute in H.
  inversion H; subst r. discriminate Hl.
Qed.

(** C1, amended: over the tokens [The, cat, runs, fast, now], where
    [runs] has lemma [run] and tag [VERB] and no other token is a verb
    with that lemma, the extractor called with lemma ["run"], window 2
    and the default row cap returns exactly one row, with left context
    ["The cat"], keyword ["runs"] and right context ["fast now"]. *)
Theorem kwic_example (the cat fast now : Token) (alpha stop : bool) :
  text the = "The" -> text cat = "cat" ->
  text fast = "fast" -> text now = "now" ->
  is_hit "run" "VERB" the = false -> is_hit "run" "VERB" cat = false ->
  is_hit "run" "VERB" fast = false -> is_hit "run" "VERB" now = false ->
  kwic [the; cat; mkToken "runs" "run" "VERB" alpha stop; fast; now]
       "run" "VERB" 2 default_max_rows
  = Ok [mkRow "The cat" "runs" "fast now"].
Proof.
  intros T0 T1 T3 T4 H0 H1 H3 H4.
  unfold kwic, hits, enumerate.
  cbn [enumerate_from filter snd]. rewrite H0, H1, H3, H4.
  change (is_hit "run" "VERB" (mkToken "runs" "run" "VERB" alpha stop))
    with true.
  cbn [map fst]. change (slice_to [0 + 1 + 1] default_max_rows) with [2].
  cbn [kwic_loop]. unfold kwic_row.
  change (getitem [the; cat; mkToken "runs" "run" "VERB" alpha stop;
                   fast; now] 2)
    with (Ok (mkToken "runs" "run" "VERB" alpha stop)).
  change (left_tokens [the; cat; mkToken "runs" "run" "VERB" alpha stop;
                       fast; now] 2 2) with [the; cat].
  change (right_tokens [the; cat; mkToken "runs" "run" "VERB" alpha stop;
                        fast; now] 2 2) with [fast; now].
  cbn [bind map text app]. rewrite T0, T1, T3, T4. reflexivity.
Qed.

Lemma kwic_example_witness :
  kwic the_cat_runs "run" "VERB" 2 default_max_rows
  = Ok [mkRow "The cat" "runs" "fast now"].
Proof.
  apply (kwic_example (mkToken "The" "the" "DET" true true)
           (mkToken "cat" "cat" "NOUN" true false)
           (mkToken "fast" "fast" "ADV" true false)
           (mkToken "now" "now" "ADV" true true) true false);
    reflexivity.
Defined.

(** C6: the extractor returns rows, no more of them than the row cap
    (a count, so not negative) and no more than there are tokens whose
    lemma (compared in lower case) and tag match.  The rows are those of
    the earliest matches, in document order: the keywords of the rows
    are the texts of the first matching tokens; row [k] is built at the
    [k]-th hit, where a matching token stands whose text is the keyword,
    with a left context joined from an end piece of the tokens before it
    and a right context joined from a front piece of the tokens after
    it; and the hits are exactly the matching positions, in increasing
    order. *)
Theorem kwic_row_cap
    (doc : Doc) (lemma pos_tag : str) (window max_rows : Z) :
  0 <= max_rows ->
  exists rows,
    kwic doc lemma pos_tag window max_rows = Ok rows
    /\ len rows <= max_rows
    /\ len rows <= len (filter (is_hit lemma pos_tag) doc)
    /\ len rows = Z.min max_rows (len (filter (is_hit lemma pos_tag) doc))
    /\ map Keyword rows
       = map text
           (firstn (Z.to_nat max_rows) (filter (is_hit lemma pos_tag) doc))
    /\ Forall2
         (fun r i =>
            kwic_row doc window i = Ok r
            /\ exists pre t post before lctx rctx after,
                 doc = pre ++ t :: post
                 /\ len pre = i
                 /\ lower (lemma_ t) = lower lemma
                 /\ pos_ t = pos_tag
                 /\ pre = before ++ lctx
                 /\ post = rctx ++ after
                 /\ Left r = join " " (map text lctx)
                 /\ Keyword r = text t
                 /\ Right r = join " " (map text rctx))
         rows (firstn (List.length rows) (hits doc lemma pos_tag))
    /\ StronglySorted Z.lt (hits doc lemma pos_tag)
    /\ (forall i, In i (hits doc lemma pos_tag) <->
          exists t, 0 <= i /\ nth_error doc (Z.to_nat i) = Some t
                    /\ lower (lemma_ t) = lower lemma /\ pos_ t = pos_tag).
Proof.
  intros Hcap.
  destruct (kwic_rows doc lemma pos_tag window max_rows)
    as (sel & Hk & Hsel & Hfst & HF).
  exists (map (row_of doc window) sel).
  assert (Hlen : List.length sel
                 = Nat.min (Z.to_nat max_rows)
                     (List.length (filter (is_hit lemma pos_tag) doc))).
  { rewrite Hsel, slice_to_nonneg, length_firstn by exact Hcap.
    rewrite <- hits_length, hits_pairs, length_map. reflexivity. }
  split; [exact Hk|]. unfold len. rewrite length_map.
  split; [lia|]. split; [lia|]. split; [lia|]. split; [|split; [|split]].
  - rewrite Hsel, slice_to_nonneg by exact Hcap.
    rewrite <- hit_pairs_snd, firstn_map, !map_map. reflexivity.
  - rewrite <- Hfst. apply Forall2_map_both.
    eapply Forall_impl; [|exact HF]. intros [i t]. cbn [fst snd].
    intros (H0 & Hn & Hhit). split; [now apply kwic_row_ok|].
    destruct (nth_error_split _ _ Hn) as (pre & post & Hdoc & Hpre).
    assert (Hi : len pre = i) by (unfold len; lia).
    apply is_hit_iff in Hhit. destruct Hhit as [Hlemma Hpos].
    subst doc i.
    destruct (left_tokens_suffix pre post t window) as [before Hb].
    destruct (right_tokens_prefix pre post t window) as [after Ha].
    exists pre, t, post, before,
           (left_tokens (pre ++ t :: post) window (len pre)),
           (right_tokens (pre ++ t :: post) window (len pre)), after.
    repeat split; assumption.
  - apply hits_sorted.
  - apply hits_In.
Qed.

Lemma kwic_row_cap_witness :
  exists rows,
    kwic run_thrice "RUN" "VERB" 1 2 = Ok rows
    /\ len rows = 2
    /\ map Keyword rows = ["Run"; "ran"].
Proof.
  destruct (kwic_row_cap run_thrice "RUN" "VERB" 1 2)
    as (rows & Hk & _ & _ & Hlen & Hkw & _).
  - lia.
  - exists rows. split; [exact Hk|]. split; [exact Hlen|exact Hkw].
Defined.

(** C7: with a window that is not negative, every row is built at a
    position [i] inside the document; its left context joins exactly
    [min window i] tokens and its right context exactly
    [min window (n - 1 - i)], [n] being the number of tokens.  The two
    windows are the tokens at the positions [i - min window i .. i - 1]
    and [i + 1 .. i + min window (n - 1 - i)], all of them inside
    [0 .. n - 1]. *)
Theorem kwic_window_clip
    (doc : Doc) (lemma pos_tag : str) (window max_rows : Z) :
  0 <= window ->
  exists rows,
    kwic doc lemma pos_tag window max_rows = Ok rows
    /\ Forall2
         (fun r i =>
            let n := len doc in
            let a := Z.min window i in
            let b := Z.min window (n - 1 - i) in
            0 <= i < n
            /\ Left r = join " " (map text (left_tokens doc window i))
            /\ Right r = join " " (map text (right_tokens doc window i))
            /\ len (left_tokens doc window i) = a
            /\ len (right_tokens doc window i) = b
            /\ left_tokens doc window i
               = firstn (Z.to_nat a) (skipn (Z.to_nat (i - a)) doc)
            /\ right_tokens doc window i
               = firstn (Z.to_nat b) (skipn (Z.to_nat (i + 1)) doc)
            /\ 0 <= i - a /\ i + b <= n - 1)
         rows (firstn (List.length rows) (hits doc lemma pos_tag)).
Proof.
  intros Hw. apply kwic_each_row. intros i t H0 Hn _. cbv zeta.
  pose proof (nth_error_range _ _ _ H0 Hn) as Hi.
  split; [exact Hi|]. split; [reflexivity|]. split; [reflexivity|].
  rewrite (left_tokens_clip doc window i Hw Hi).
  rewrite (right_tokens_clip doc window i Hw Hi).
  repeat split; try reflexivity; try lia.
  - apply len_firstn_skipn; lia.
  - apply len_firstn_skipn; lia.
Qed.

Lemma kwic_window_clip_witness :
  exists rows,
    kwic run_thrice "run" "VERB" 2 default_max_rows = Ok rows
    /\ Forall2
         (fun r i =>
            len (left_tokens run_thrice 2 i) = Z.min 2 i
            /\ len (right_tokens run_thrice 2 i) = Z.min 2 (6 - 1 - i))
         rows [0; 2; 5].
Proof.
  destruct (kwic_window_clip run_thrice "run" "VERB" 2 default_max_rows)
    as (rows & Hk & HF).
  - lia.
  - exists rows. split; [exact Hk|].
    assert (Hr : List.length rows = 3%nat).
    { vm_compute in Hk. now inversion Hk. }
    rewrite Hr in HF.
    change (firstn 3 (hits run_thrice "run" "VERB")) with [0; 2; 5] in HF.
    eapply Forall2_impl; [|exact HF]. cbv zeta.
    change (len run_thrice) with 6. intros r i H. cbv beta in H. tauto.
Defined.

(** C10: every row is built at a position that splits the document into
    the tokens before it, the matched token and the tokens after it.  The
    keyword is the matched token; the left context joins an end piece of
    the tokens before it and the right context a front piece of the
    tokens after it, in the order of the document, so the matched token
    itself is in neither.  This holds for every window and row cap. *)
Theorem kwic_context_excludes_keyword
    (doc : Doc) (lemma pos_tag : str) (window max_rows : Z) :
  exists rows,
    kwic doc lemma pos_tag window max_rows = Ok rows
    /\ Forall2
         (fun r i =>
            exists pre t post before lctx rctx after,
              doc = pre ++ t :: post
              /\ len pre = i
              /\ pre = before ++ lctx
              /\ post = rctx ++ after
              /\ Left r = join " " (map text lctx)
              /\ Keyword r = text t
              /\ Right r = join " " (map text rctx))
         rows (firstn (List.length rows) (hits doc lemma pos_tag)).
Proof.
  apply kwic_each_row. intros i t H0 Hn _.
  destruct (nth_error_split _ _ Hn) as (pre & post & Hdoc & Hlen).
  assert (Hi : len pre = i) by (unfold len; lia).
  subst doc i.
  destruct (left_tokens_suffix pre post t window) as [before Hb].
  destruct (right_tokens_prefix pre post t window) as [after Ha].
  exists pre, t, post, before,
         (left_tokens (pre ++ t :: post) window (len pre)),
         (right_tokens (pre ++ t :: post) window (len pre)), after.
  repeat split; assumption.
Qed.

(** Matching is by the lower-case forms, beyond ASCII too. *)
Example kwic_matches_any_case :
  kwic [ mkToken "Il" "il" "PRON" true true;
         mkToken "ÉTAIT" "ÊTRE" "AUX" true true;
         mkToken "là" "là" "ADV" true false ]
       "être" "AUX" 1 5
  = Ok [mkRow "Il" "ÉTAIT" "là"].
Proof. reflexivity. Qed.

End Kwic.

(** ** Facts about [precedes] *)

Module OrderFacts.

Import Order.

Section Precedes.
Context {A : Type}.
Implicit Types (x y z : A) (l : list A).

Lemma precedes_split x y l1 l2 l3 : precedes x y (l1 ++ x :: l2 ++ y :: l3).
Proof.
  induction l1 as [|z l1 IH]; simpl.
  - constructor. apply in_or_app. right. now left.
  - now constructor.
Qed.

Lemma precedes_In x y l : precedes x y l -> In x l /\ In y l.
Proof.
  induction 1 as [l H|z l _ [IH1 IH2]]; simpl; tauto.
Qed.

Lemma precedes_snoc x y z l :
  precedes x y (l ++ [z]) -> precedes x y l \/ (In x l /\ y = z).
Proof.
  induction l as [|w l IH]; simpl; intros H.
  - inversion H as [l' Hin|w' l' Hp]; subst.
    + destruct Hin.
    + inversion Hp.
  - inversion H as [l' Hin|w' l' Hp]; subst.
    + apply in_app_or in Hin. destruct Hin as [Hin|[->|[]]].
      * left. now constructor.
      * right. split; [now left|reflexivity].
    + destruct (IH Hp) as [Hl|[Hin ->]].
      * left. now constructor.
      * right. split; [now right|reflexivity].
Qed.

Lemma precedes_filter (p : A -> bool) x y l :
  precedes x y l -> p x = true -> p y = true -> precedes x y (filter p l).
Proof.
  intros H Hx Hy. induction H as [l Hin|z l _ IH]; simpl.
  - rewrite Hx. constructor. apply filter_In. now split.
  - destruct (p z); [now constructor|assumption].
Qed.

Lemma precedes_filter_inv (p : A -> bool) x y l :
  precedes x y (filter p l) -> precedes x y l.
Proof.
  induction l as [|z l IH]; simpl; intros H.
  - inversion H.
  - destruct (p z).
    + inversion H as [l' Hin|w' l' Hp]; subst.
      * constructor. now apply filter_In in Hin.
      * constructor. now apply IH.
    + constructor. now apply IH.
Qed.

End Precedes.

Lemma precedes_map {A B : Type} (f : A -> B) x y (l : list A) :
  precedes x y l -> precedes (f x) (f y) (map f l).
Proof.
  induction 1 as [l Hin|z l _ IH]; simpl.
  - constructor. now apply in_map.
  - now constructor.
Qed.

End OrderFacts.

(** ** Counters and [most_common] *)

Module CounterFacts.

Import Counter Order OrderFacts Tally.

Lemma of_list_snoc items k : of_list (items ++ [k]) = incr k (of_list items).
Proof. unfold of_list. now rewrite fold_left_app. Qed.

Lemma total_incr k c : total (incr k c) = total c + 1.
Proof.
  induction c as [|[k' v] r IH]; simpl.
  - reflexivity.
  - destruct (Str.eqb k k'); simpl; lia.
Qed.

Lemma total_of_list items : total (of_list items) = PyList.len items.
Proof.
  induction items as [|k items IH] using rev_ind.
  - reflexivity.
  - rewrite of_list_snoc, total_incr, IH, PyListFacts.len_app.
    reflexivity.
Qed.

Lemma get_incr k c k' :
  get (incr k c) k' = if Str.eqb k' k then get c k' + 1 else get c k'.
Proof.
  induction c as [|[k0 v] r IH]; simpl.
  - destruct (Str.eqb k' k); reflexivity.
  - destruct (Str.eqb k k0) eqn:E; simpl.
    + apply StrFacts.eqb_eq in E. subst k0.
      destruct (Str.eqb k' k); reflexivity.
    + rewrite IH. destruct (Str.eqb k' k0) eqn:E'; [|reflexivity].
      apply StrFacts.eqb_eq in E'. subst k0.
      rewrite StrFacts.eqb_sym in E. now rewrite E.
Qed.

Lemma get_of_list items k : get (of_list items) k = occurrences k items.
Proof.
  unfold occurrences. induction items as [|x items IH] using rev_ind.
  - reflexivity.
  - rewrite of_list_snoc, get_incr, IH, filter_app, PyListFacts.len_app.
    simpl. destruct (Str.eqb k x); unfold PyList.len; simpl; lia.
Qed.

Lemma keys_incr k c :
  keys (incr k c) = if existsb (Str.eqb k) (keys c) then keys c
                    else keys c ++ [k].
Proof.
  induction c as [|[k' v] r IH]; simpl.
  - reflexivity.
  - destruct (Str.eqb k k') eqn:E; simpl.
    + reflexivity.
    + unfold keys in *. rewrite IH.
      now destruct (existsb (Str.eqb k) (map fst r)).
Qed.

Lemma existsb_eqb_In k (l : list str) :
  existsb (Str.eqb k) l = true <-> In k l.
Proof.
  rewrite existsb_exists. split.
  - intros (x & Hin & E). apply StrFacts.eqb_eq in E. now subst.
  - intros H. exists k. split; [assumption|apply StrFacts.eqb_refl].
Qed.

Lemma keys_of_list_In items k : In k (keys (of_list items)) <-> In k items.
Proof.
  revert k. induction items as [|x items IH] using rev_ind; intros k.
  - reflexivity.
  - rewrite of_list_snoc, keys_incr, in_app_iff.
    destruct (existsb (Str.eqb x) (keys (of_list items))) eqn:E.
    + apply existsb_eqb_In in E. rewrite IH in E. rewrite IH. simpl.
      split; [tauto|]. intros [H|[<-|[]]]; assumption.
    + rewrite in_app_iff, IH. reflexivity.
Qed.

Lemma in_split_first (k : str) (l : list str) :
  In k l -> exists l1 l2, l = l1 ++ k :: l2 /\ ~ In k l1.
Proof.
  induction l as [|x l IH]; simpl; intros H.
  - destruct H.
  - destruct (StrFacts.str_dec x k) as [->|Hne].
    + exists [], l. split; [reflexivity|intros []].
    + destruct H as [H|H]; [contradiction|].
      destruct (IH H) as (l1 & l2 & -> & Hni).
      exists (x :: l1), l2. split; [reflexivity|].
      simpl. intros [E|E]; [contradiction|now apply Hni].
Qed.

Lemma keys_of_list_NoDup items : NoDup (keys (of_list items)).
Proof.
  induction items as [|x items IH] using rev_ind.
  - constructor.
  - rewrite of_list_snoc, keys_incr.
    destruct (existsb (Str.eqb x) (keys (of_list items))) eqn:E.
    + exact IH.
    + apply NoDup_app; [exact IH|repeat constructor; intros []|].
      intros k Hin [<-|[]].
      rewrite <- existsb_eqb_In in Hin. congruence.
Qed.

Lemma get_In c k v : NoDup (keys c) -> In (k, v) c -> get c k = v.
Proof.
  induction c as [|[k' v'] r IH]; simpl; intros Hnd Hin.
  - destruct Hin.
  - inversion Hnd as [|? ? Hni Hnd']; subst.
    destruct Hin as [E|Hin].
    + inversion E; subst. now rewrite StrFacts.eqb_refl.
    + destruct (Str.eqb k k') eqn:E.
      * apply StrFacts.eqb_eq in E. subst k'. exfalso. apply Hni.
        change k with (fst (k, v)). now apply in_map.
      * now apply IH.
Qed.

(** An entry of [Counter(items)] is a lemma of [items] with the number
    of its occurrences, which is positive. *)
Lemma of_list_In items k v :
  In (k, v) (of_list items) ->
  In k items /\ v = occurrences k items /\ 0 < v.
Proof.
  intros Hin.
  assert (Hk : In k items).
  { apply keys_of_list_In. change k with (fst (k, v)). now apply in_map. }
  assert (Hv : v = occurrences k items).
  { rewrite <- get_of_list. symmetry.
    apply get_In; [apply keys_of_list_NoDup|assumption]. }
  split; [assumption|split; [assumption|]].
  subst v. unfold occurrences, PyList.len.
  assert (Hf : In k (filter (Str.eqb k) items)).
  { apply filter_In. split; [assumption|apply StrFacts.eqb_refl]. }
  destruct (filter (Str.eqb k) items); [destruct Hf|simpl; lia].
Qed.

(** In [Counter(items)] a key stands before another one only if it was
    met first: up to its first occurrence in [items] neither occurs. *)
Lemma of_list_order items ka kb :
  precedes ka kb (keys (of_list items)) ->
  exists l1 l2, items = l1 ++ ka :: l2 /\ ~ In ka l1 /\ ~ In kb l1.
Proof.
  induction items as [|x items IH] using rev_ind; intros H.
  - inversion H.
  - rewrite of_list_snoc, keys_incr in H.
    assert (Hold : precedes ka kb (keys (of_list items)) ->
              exists l1 l2, (items ++ [x]) = l1 ++ ka :: l2
                            /\ ~ In ka l1 /\ ~ In kb l1).
    { intros Hp. destruct (IH Hp) as (l1 & l2 & -> & Ha & Hb).
      exists l1, (l2 ++ [x]). rewrite <- app_assoc. auto. }
    destruct (existsb (Str.eqb x) (keys (of_list items))) eqn:E.
    + now apply Hold.
    + apply precedes_snoc in H. destruct H as [H|[Hin ->]].
      * now apply Hold.
      * assert (Hx : ~ In x items).
        { intros Hx. rewrite <- keys_of_list_In in Hx.
          rewrite <- existsb_eqb_In in Hx. congruence. }
        rewrite keys_of_list_In in Hin.
        destruct (in_split_first ka items Hin) as (l1 & l2 & -> & Ha).
        exists l1, (l2 ++ [x]). rewrite <- app_assoc.
        split; [reflexivity|split; [assumption|]].
        intros Hb. apply Hx. apply in_or_app. now left.
Qed.

(** *** The stable descending sort *)

Lemma insert_desc_perm e l : Permutation (insert_desc e l) (e :: l).
Proof.
  induction l as [|e' r IH]; simpl.
  - reflexivity.
  - destruct (snd e' <=? snd e).
    + reflexivity.
    + rewrite IH. apply perm_swap.
Qed.

Lemma sorted_desc_perm l : Permutation (sorted_desc l) l.
Proof.
  induction l as [|e r IH]; simpl.
  - reflexivity.
  - rewrite insert_desc_perm. now constructor.
Qed.

Lemma insert_desc_sorted e l :
  StronglySorted by_count_desc l ->
  StronglySorted by_count_desc (insert_desc e l).
Proof.
  induction 1 as [|e' r Hs IH Hall]; simpl.
  - repeat constructor.
  - destruct (snd e' <=? snd e) eqn:E.
    + apply Z.leb_le in E. constructor; [now constructor|].
      constructor; [exact E|].
      eapply Forall_impl; [|exact Hall]. unfold by_count_desc.
      intros x Hx. lia.
    + apply Z.leb_gt in E. constructor; [exact IH|].
      apply (Permutation_Forall (Permutation_sym (insert_desc_perm e r))).
      constructor; [unfold by_count_desc; lia|exact Hall].
Qed.

Lemma sorted_desc_sorted l : StronglySorted by_count_desc (sorted_desc l).
Proof.
  induction l as [|e r IH]; simpl.
  - constructor.
  - now apply insert_desc_sorted.
Qed.

(** Stability: the entries with one count keep their order. *)
Lemma insert_desc_stable n e l :
  filter (fun x => snd x =? n) (insert_desc e l)
  = filter (fun x => snd x =? n) (e :: l).
Proof.
  induction l as [|e' r IH]; simpl.
  - reflexivity.
  - destruct (snd e' <=? snd e) eqn:E.
    + reflexivity.
    + apply Z.leb_gt in E. simpl in *. rewrite IH.
      destruct (snd e =? n) eqn:E1; [|reflexivity].
      apply Z.eqb_eq in E1.
      destruct (snd e' =? n) eqn:E2; [|reflexivity].
      apply Z.eqb_eq in E2. lia.
Qed.

Lemma sorted_desc_stable n l :
  filter (fun x => snd x =? n) (sorted_desc l)
  = filter (fun x => snd x =? n) l.
Proof.
  induction l as [|e r IH]; simpl.
  - reflexivity.
  - rewrite insert_desc_stable. simpl. now rewrite IH.
Qed.

Lemma sorted_desc_order a b l :
  precedes a b (sorted_desc l) -> snd a = snd b -> precedes a b l.
Proof.
  intros H E.
  apply (precedes_filter_inv (fun x => snd x =? snd a)).
  rewrite <- sorted_desc_stable.
  apply precedes_filter; [exact H|apply Z.eqb_refl|].
  rewrite E. apply Z.eqb_refl.
Qed.

Lemma total_perm l l' : Permutation l l' -> total l = total l'.
Proof.
  induction 1; simpl; lia.
Qed.

Lemma most_common_total c : total (most_common c) = total c.
Proof. apply total_perm, sorted_desc_perm. Qed.

Lemma most_common_In c e : In e (most_common c) <-> In e c.
Proof.
  split; apply Permutation_in;
    [|apply Permutation_sym]; apply sorted_desc_perm.
Qed.

Lemma most_common_keys_NoDup c :
  NoDup (keys c) -> NoDup (keys (most_common c)).
Proof.
  apply Permutation_NoDup, Permutation_map, Permutation_sym.
  apply sorted_desc_perm.
Qed.

End CounterFacts.

(** ** The frequency aggregator *)

Module Frequency.

Import PyStr PyList PyListFacts SFLizer Order OrderFacts Tally Filters
  CounterFacts.

Lemma analyze_pos_step_spec pos_tag min_len remove_stop items t :
  analyze_pos_step pos_tag min_len remove_stop items t
  = items ++ (if qualifies pos_tag min_len remove_stop t then [key t]
              else []).
Proof.
  unfold analyze_pos_step, qualifies, passes_filters, long_enough, key.
  destruct (Str.eqb (pos_ t) pos_tag), (is_alpha t), remove_stop,
    (is_stop t), (min_len <=? PyStr.len (lower (lemma_ t)));
    simpl; now rewrite ?app_nil_r.
Qed.

Lemma analyze_pos_loop pos_tag min_len remove_stop doc items :
  fold_left (analyze_pos_step pos_tag min_len remove_stop) doc items
  = items ++ map key (filter (qualifies pos_tag min_len remove_stop) doc).
Proof.
  revert items. induction doc as [|t doc IH]; intros items; simpl.
  - now rewrite app_nil_r.
  - rewrite IH, analyze_pos_step_spec, <- app_assoc.
    now destruct (qualifies pos_tag min_len remove_stop t).
Qed.

Lemma analyze_pos_items_spec doc pos_tag min_len remove_stop :
  analyze_pos_items doc pos_tag min_len remove_stop
  = map key (filter (qualifies pos_tag min_len remove_stop) doc).
Proof. apply (analyze_pos_loop pos_tag min_len remove_stop doc []). Qed.

Lemma occurrences_items k (q : Token -> bool) doc :
  occurrences k (map key (filter q doc))
  = len (filter (fun t => (q t && Str.eqb k (key t))%bool) doc).
Proof.
  unfold occurrences, len. f_equal.
  induction doc as [|t doc IH]; simpl.
  - reflexivity.
  - destruct (q t); simpl; [|exact IH].
    destruct (Str.eqb k (key t)); simpl; now rewrite IH.
Qed.

Lemma filter_filter_implies {A : Type} (p q : A -> bool) (l : list A) :
  (forall x, q x = true -> p x = true) ->
  filter q (filter p l) = filter q l.
Proof.
  intros H. induction l as [|x l IH]; simpl.
  - reflexivity.
  - destruct (p x) eqn:Ep; simpl.
    + now rewrite IH.
    + destruct (q x) eqn:Eq; [|exact IH].
      apply H in Eq. congruence.
Qed.

Lemma map_filter_split {A B : Type} (f : A -> B) (q : A -> bool)
    (doc : list A) l1 k l2 :
  map f (filter q doc) = l1 ++ k :: l2 ->
  exists d1 t d2, doc = d1 ++ t :: d2 /\ q t = true /\ f t = k
                  /\ map f (filter q d1) = l1.
Proof.
  revert l1. induction doc as [|u doc IH]; intros l1; simpl.
  - now destruct l1.
  - destruct (q u) eqn:E; simpl.
    + destruct l1 as [|x l1]; simpl; intros H; inversion H; subst.
      * exists [], u, doc. simpl. auto.
      * destruct (IH _ H2) as (d1 & t & d2 & -> & Hq & Hf & Hm).
        exists (u :: d1), t, d2. simpl. rewrite E. simpl.
        split; [reflexivity|]. split; [assumption|].
        split; [assumption|]. now rewrite Hm.
    + intros H. destruct (IH _ H) as (d1 & t & d2 & -> & Hq & Hf & Hm).
      exists (u :: d1), t, d2. simpl. rewrite E. auto.
Qed.

Lemma analyze_pos_records doc pos_tag label min_len remove_stop :
  records (analyze_pos doc pos_tag label min_len remove_stop)
  = Counter.most_common
      (Counter.of_list
         (map key (filter (qualifies pos_tag min_len remove_stop) doc))).
Proof.
  unfold analyze_pos. simpl. now rewrite analyze_pos_items_spec.
Qed.

(** The specification's example: "The cat runs. The dog runs fast." *)
Example analyze_pos_two_runs :
  analyze_pos
    [ mkToken "The" "the" "DET" true true;
      mkToken "cat" "cat" "NOUN" true false;
      mkToken "runs" "run" "VERB" true false;
      mkToken "." "." "PUNCT" false false;
      mkToken "The" "the" "DET" true true;
      mkToken "dog" "dog" "NOUN" true false;
      mkToken "runs" "run" "VERB" true false;
      mkToken "fast" "fast" "ADV" true false;
      mkToken "." "." "PUNCT" false false ]
    "VERB" "Verb" default_min_len default_remove_stop
  = mkFrame ("Verb", "Frequency") [("run", 2)].
Proof. reflexivity. Qed.

(** C2: the counts of the frequency table are positive integers and
    their sum is the number of tokens that pass the tag, alphabetic,
    stop-word and minimum-length filters. *)
Theorem analyze_pos_counts_sum
    (doc : Doc) (pos_tag label : str) (min_len : Z) (remove_stop : bool) :
  let table := records (analyze_pos doc pos_tag label min_len remove_stop) in
  total table = len (filter (qualifies pos_tag min_len remove_stop) doc)
  /\ Forall (fun e => 0 < snd e) table.
Proof.
  cbv zeta. rewrite analyze_pos_records. split.
  - rewrite most_common_total, total_of_list. unfold len.
    now rewrite length_map.
  - apply Forall_forall. intros [k v] Hin.
    apply most_common_In, of_list_In in Hin. simpl. tauto.
Qed.

(** C4: the frequency table is in order of non-increasing count, and of
    two lemmas with the same count the one listed first is the one that
    was met first: some token counted under it has before it no token
    counted under either of the two. *)
Theorem analyze_pos_order
    (doc : Doc) (pos_tag label : str) (min_len : Z) (remove_stop : bool) :
  let table := records (analyze_pos doc pos_tag label min_len remove_stop) in
  let counted := qualifies pos_tag min_len remove_stop in
  StronglySorted (fun a b => snd b <= snd a) table
  /\ forall t1 a t2 b t3,
       table = t1 ++ a :: t2 ++ b :: t3 -> snd a = snd b ->
       exists d1 t d2,
         doc = d1 ++ t :: d2
         /\ counted t = true /\ lower (lemma_ t) = fst a
         /\ Forall (fun u => counted u = true ->
                             lower (lemma_ u) <> fst a
                             /\ lower (lemma_ u) <> fst b) d1.
Proof.
  cbv zeta. rewrite analyze_pos_records. split.
  - apply sorted_desc_sorted.
  - intros t1 a t2 b t3 Htab Hcount.
    set (q := qualifies pos_tag min_len remove_stop) in *.
    assert (Hp : precedes (fst a) (fst b)
                   (keys (Counter.of_list (map key (filter q doc))))).
    { apply precedes_map, sorted_desc_order; [|exact Hcount].
      unfold Counter.most_common in Htab. rewrite Htab.
      apply precedes_split. }
    destruct (of_list_order _ _ _ Hp) as (l1 & l2 & Hitems & Ha & Hb).
    destruct (map_filter_split key q doc l1 (fst a) l2 Hitems)
      as (d1 & t & d2 & Hdoc & Hq & Hk & Hd1).
    exists d1, t, d2. split; [exact Hdoc|]. split; [exact Hq|].
    split; [exact Hk|]. apply Forall_forall. intros u Hu Hqu.
    assert (Hin : In (key u) l1).
    { rewrite <- Hd1. apply in_map, filter_In. now split. }
    split; intros E; unfold key in Hin; rewrite E in Hin; contradiction.
Qed.

(** C5: every lemma of the frequency table is the lower-cased lemma of
    a token of the document whose tag is the target tag, which is
    alphabetic and which, when stop words are left out, is not a stop
    word; its count is the number of the qualifying tokens with that
    lemma.  The tokens that fail one of the three filters contribute
    nothing: without them the table is the same. *)
Theorem analyze_pos_filters
    (doc : Doc) (pos_tag label : str) (min_len : Z) (remove_stop : bool) :
  let table := records (analyze_pos doc pos_tag label min_len remove_stop) in
  (forall lemma count,
     In (lemma, count) table ->
     0 < count
     /\ count
        = len (filter
                 (fun t => (qualifies pos_tag min_len remove_stop t
                            && Str.eqb lemma (lower (lemma_ t)))%bool)
                 doc)
     /\ exists t,
          In t doc /\ lower (lemma_ t) = lemma
          /\ pos_ t = pos_tag /\ is_alpha t = true
          /\ (remove_stop = true -> is_stop t = false))
  /\ analyze_pos (filter (passes_filters pos_tag remove_stop) doc)
       pos_tag label min_len remove_stop
     = analyze_pos doc pos_tag label min_len remove_stop.
Proof.
  cbv zeta. split.
  - rewrite analyze_pos_records. intros lemma count Hin.
    apply most_common_In, of_list_In in Hin.
    destruct Hin as (Hk & Hc & Hpos). split; [exact Hpos|].
    split; [rewrite Hc; apply occurrences_items|].
    apply in_map_iff in Hk. destruct Hk as (t & Hkey & Ht).
    apply filter_In in Ht. destruct Ht as [Ht Hq].
    exists t. split; [exact Ht|]. split; [exact Hkey|].
    unfold qualifies, passes_filters in Hq.
    rewrite !andb_true_iff, negb_true_iff, StrFacts.eqb_eq in Hq.
    destruct Hq as [[[Hp Ha] Hs] _].
    split; [exact Hp|]. split; [exact Ha|].
    intros ->. exact Hs.
  - unfold analyze_pos. rewrite !analyze_pos_items_spec.
    rewrite filter_filter_implies; [reflexivity|].
    intros t Hq. unfold qualifies in Hq.
    now apply andb_true_iff in Hq.
Qed.

End Frequency.

(** ** Empty input and errors *)

Module Errors.

Import PyList SFLizer Concordance KwicFacts.

(** The extractor never raises, whatever its arguments. *)
Lemma kwic_total (doc : Doc) (lemma pos_tag : str) (window max_rows : Z) :
  exists rows, kwic doc lemma pos_tag window max_rows = Ok rows.
Proof.
  destruct (kwic_rows doc lemma pos_tag window max_rows) as (sel & H & _).
  now exists (map (row_of doc window) sel).
Qed.

(** C9: on the empty token sequence the frequency aggregator returns a
    frame without records and the extractor returns no row, and neither
    raises.  The aggregator is a total function: it has no step that can
    raise.  The only such step of the extractor is the subscript
    [tokens[i]], and it never raises: for every document and all
    arguments the extractor returns rows. *)
Theorem empty_input_empty_result
    (lemma pos_tag label : str) (min_len window max_rows : Z)
    (remove_stop : bool) :
  analyze_pos [] pos_tag label min_len remove_stop
  = mkFrame (label, "Frequency") []
  /\ kwic [] lemma pos_tag window max_rows = Ok []
  /\ (forall doc, exists rows,
        kwic doc lemma pos_tag window max_rows = Ok rows).
Proof.
  split; [reflexivity|]. split.
  - unfold kwic, hits, enumerate. simpl.
    unfold slice_to, slice. simpl. now rewrite firstn_nil.
  - intros doc. apply kwic_total.
Qed.

End Errors.

(** ** The process classifier *)

Module Classifier.

Import PyStr PyStrFacts StreamlitApp Casing Lookup.

Lemma distinct_NoDup l : distinct l = true -> NoDup l.
Proof.
  induction l as [|x r IH]; simpl; intros H.
  - constructor.
  - apply andb_true_iff in H. destruct H as [Hx Hr].
    constructor; [|now apply IH].
    intros Hin. apply negb_true_iff in Hx.
    apply CounterFacts.existsb_eqb_In in Hin. congruence.
Qed.

Lemma dict_get_absent d k default :
  ~ In k (map fst d) -> dict_get d k default = default.
Proof.
  revert default. induction d as [|[k' v] r IH]; simpl; intros default H.
  - reflexivity.
  - destruct (Str.eqb k k') eqn:E.
    + apply StrFacts.eqb_eq in E. subst k'. exfalso. apply H. now left.
    + apply IH. intros Hin. apply H. now right.
Qed.

Lemma dict_get_present d k v default :
  NoDup (map fst d) -> In (k, v) d -> dict_get d k default = v.
Proof.
  revert default. induction d as [|[k' v'] r IH]; simpl; intros default Hn H.
  - destruct H.
  - inversion Hn as [|? ? Hni Hn']; subst. destruct H as [E|H].
    + inversion E; subst. rewrite StrFacts.eqb_refl.
      now apply dict_get_absent.
    + now apply IH.
Qed.

Lemma dict_get_value d k default :
  In (dict_get d k default) (default :: map snd d).
Proof.
  revert default. induction d as [|[k' v] r IH]; simpl; intros default.
  - now left.
  - destruct (IH (if Str.eqb k k' then v else default)) as [H|H].
    + rewrite <- H. destruct (Str.eqb k k'); auto.
    + auto.
Qed.

Lemma sfl_map_keys_NoDup : NoDup (map fst sfl_map).
Proof. apply distinct_NoDup. vm_compute. reflexivity. Qed.

Lemma sfl_map_keys_lower :
  Forall (fun e => lower (fst e) = fst e) sfl_map.
Proof.
  unfold sfl_map. repeat (constructor; [reflexivity|]). constructor.
Qed.

Lemma sfl_map_values :
  Forall (fun e => In (snd e) categories) sfl_map.
Proof.
  apply Forall_forall. intros e He.
  assert (H : forallb (fun e => existsb (Str.eqb (snd e)) categories)
                sfl_map = true) by (vm_compute; reflexivity).
  rewrite forallb_forall in H. apply H in He.
  now apply CounterFacts.existsb_eqb_In in He.
Qed.

Lemma sfl_process_category lemma : In (sfl_process lemma) categories.
Proof.
  destruct (dict_get_value sfl_map lemma "Material") as [H|H].
  - unfold sfl_process. rewrite <- H. now left.
  - apply in_map_iff in H. destruct H as (e & He & Hin).
    unfold sfl_process. rewrite <- He.
    pose proof sfl_map_values as Hv. rewrite Forall_forall in Hv.
    now apply Hv.
Qed.

(** Where [classify] comes from: for every token [analyze_text] keeps,
    [rows] has a row whose verb is the lower-cased lemma of the token and
    whose process is the category of that lemma. *)
Lemma analyze_text_rows_classify (doc : Doc) (t : Token) :
  In t doc -> is_verb t = true ->
  exists r, In r (analyze_text_rows doc)
            /\ Verb r = lower (lemma_ t)
            /\ SFL_Process r = classify (lemma_ t).
Proof.
  intros Hin Hv.
  assert (Hk : In (lower (lemma_ t))
                 (Tally.keys
                    (Counter.of_list (map snd (verbs doc))))).
  { apply CounterFacts.keys_of_list_In. unfold verbs.
    rewrite map_map. simpl.
    apply (in_map (fun u => lower (lemma_ u))), filter_In. now split. }
  apply in_map_iff in Hk. destruct Hk as ([k v] & Hfst & He).
  simpl in Hfst. subst k.
  exists (mkVerbRow (lower (lemma_ t)) v (sfl_process (lower (lemma_ t)))).
  split; [|split; reflexivity].
  unfold analyze_text_rows.
  apply (in_map (fun e => mkVerbRow (fst e) (snd e) (sfl_process (fst e)))
           _ _ He).
Qed.

Lemma sfl_map_keys_small :
  Forall (fun e => small_letters (fst e) = true) sfl_map.
Proof.
  apply Forall_forall. intros e He.
  assert (H : forallb (fun e => small_letters (fst e)) sfl_map = true)
    by (vm_compute; reflexivity).
  rewrite forallb_forall in H. now apply H.
Qed.

(** Any way of writing a word of small ASCII letters with capitals
    lower-cases to the word. *)
Lemma capitalised_lower s k :
  small_letters k = true -> capitalised s k -> lower s = k.
Proof.
  intros Hk Hc. unfold small_letters in Hk. rewrite forallb_forall in Hk.
  assert (Hs : Forall (fun c => (c < 128)%N) s
               /\ map ascii_lower s = k).
  { induction Hc as [|a b s k Hab _ IH]; [now split|].
    assert (Hb : (97 <= b <= 122)%N).
    { specialize (Hk b (or_introl eq_refl)).
      apply andb_true_iff in Hk. rewrite !N.leb_le in Hk. lia. }
    destruct IH as [IH1 IH2].
    { intros c Hin. apply Hk. now right. }
    assert (Ha : (a < 128)%N /\ ascii_lower a = b).
    { unfold ascii_lower. destruct Hab as [->|(_ & _ & Hab)].
      - split; [lia|].
        destruct ((65 <=? b)%N && (b <=? 90)%N)%bool eqn:E; [|reflexivity].
        apply andb_true_iff in E. rewrite !N.leb_le in E. lia.
      - split; [lia|].
        destruct ((65 <=? a)%N && (a <=? 90)%N)%bool eqn:E; [exact Hab|].
        apply andb_false_iff in E. rewrite !N.leb_gt in E. lia. }
    destruct Ha as [Ha1 Ha2]. split; [now constructor|].
    simpl. now rewrite Ha2, IH2. }
  destruct Hs as [Hs1 Hs2]. unfold lower.
  now rewrite lower_from_ascii.
Qed.

(** C3: the category the classifier gives to a lemma is the one it gives
    to the lower-cased lemma, so two strings with one lower-case form
    get one category; in particular any way of writing a key of the
    table with capitals gets the category of the key, as ["KNOW"],
    ["Know"] and the spelling with the Kelvin sign U+212A get that of
    ["know"].  The classifier is the one of [analyze_text]: the row of a
    retained token carries [classify] of the token's lemma.  And the
    category depends on the string alone: in the frames of any two calls
    of [analyze_text], rows with the same verb carry the same
    category. *)
Theorem classify_case_insensitive :
  (forall s, classify s = classify (lower s))
  /\ (forall s s', lower s = lower s' -> classify s = classify s')
  /\ (forall s k category,
        In (k, category) sfl_map -> capitalised s k ->
        classify s = category)
  /\ classify "KNOW" = "Mental"
  /\ classify "Know" = "Mental"
  /\ classify (8490%N :: "NOW") = "Mental"
  /\ classify "know" = "Mental"
  /\ (forall doc t,
        In t doc -> is_verb t = true ->
        exists r, In r (analyze_text_rows doc)
                  /\ Verb r = lower (lemma_ t)
                  /\ SFL_Process r = classify (lemma_ t))
  /\ (forall doc1 doc2 df1 df2 r1 r2,
        analyze_text_returns doc1 df1 -> analyze_text_returns doc2 df2 ->
        In r1 df1 -> In r2 df2 -> Verb r1 = Verb r2 ->
        SFL_Process r1 = SFL_Process r2).
Proof.
  split; [|split; [|split]].
  - intros s. unfold classify. now rewrite lower_idem.
  - intros s s' H. unfold classify. now rewrite H.
  - intros s k category Hin Hc.
    pose proof sfl_map_keys_small as Hk. rewrite Forall_forall in Hk.
    specialize (Hk _ Hin). simpl in Hk.
    unfold classify. rewrite (capitalised_lower s k Hk Hc).
    apply dict_get_present; [apply sfl_map_keys_NoDup|exact Hin].
  - split; [reflexivity|]. split; [reflexivity|].
    split; [reflexivity|]. split; [reflexivity|]. split.
    + intros doc t. apply analyze_text_rows_classify.
    + intros doc1 doc2 df1 df2 r1 r2 (_ & Hp1 & _) (_ & Hp2 & _) H1 H2 Hv.
      apply (Permutation_in _ Hp1) in H1.
      apply (Permutation_in _ Hp2) in H2.
      unfold analyze_text_rows in H1, H2.
      apply in_map_iff in H1. destruct H1 as (e1 & <- & _).
      apply in_map_iff in H2. destruct H2 as (e2 & <- & _).
      simpl in *. now rewrite Hv.
Qed.

(** C8: the lookup returns the category the table stores under the lemma
    when the lemma is one of its keys, and ["Material"] when it is not;
    ["know"] is [Mental], ["xyz123"] is [Material]; every category
    returned, by the lookup and by the classifier that lower-cases first,
    is one of the six. *)
Theorem sfl_process_lookup :
  (forall lemma category,
     In (lemma, category) sfl_map ->
     sfl_process lemma = category /\ classify lemma = category)
  /\ (forall lemma,
        ~ In lemma (map fst sfl_map) -> sfl_process lemma = "Material")
  /\ sfl_process "know" = "Mental" /\ classify "know" = "Mental"
  /\ sfl_process "xyz123" = "Material" /\ classify "xyz123" = "Material"
  /\ (forall lemma,
        In (sfl_process lemma) categories /\ In (classify lemma) categories)
  /\ categories = [ "Material"; "Mental"; "Relational"; "Verbal";
                    "Behavioral"; "Existential" ].
Proof.
  split; [|split].
  - intros lemma category Hin.
    assert (Hp : sfl_process lemma = category).
    { apply dict_get_present; [apply sfl_map_keys_NoDup|exact Hin]. }
    split; [exact Hp|]. unfold classify.
    pose proof sfl_map_keys_lower as Hl. rewrite Forall_forall in Hl.
    specialize (Hl _ Hin). simpl in Hl. now rewrite Hl.
  - intros lemma Hni. now apply dict_get_absent.
  - repeat split; try reflexivity; try apply sfl_process_category.
Qed.

End Classifier.

(** ** More about the concordance extractor *)

Module KwicMore.

Import PyStr PyStrFacts PyList PyListFacts SFLizer Concordance KwicFacts.
Import Tally Filters CounterFacts.

Lemma filter_length_le {A : Type} (p q : A -> bool) (l : list A) :
  (forall x, p x = true -> q x = true) ->
  (List.length (filter p l) <= List.length (filter q l))%nat.
Proof.
  intros H. induction l as [|x l IH]; simpl.
  - lia.
  - destruct (p x) eqn:Ep.
    + rewrite (H x Ep). simpl. lia.
    + destruct (q x); simpl; lia.
Qed.

Lemma kwic_len doc lemma pos_tag window max_rows :
  exists rows,
    kwic doc lemma pos_tag window max_rows = Ok rows
    /\ len rows
       = adjust (len (filter (is_hit lemma pos_tag) doc)) max_rows.
Proof.
  destruct (kwic_rows doc lemma pos_tag window max_rows)
    as (sel & Hk & Hsel & _).
  exists (map (row_of doc window) sel). split; [exact Hk|].
  unfold len. rewrite length_map, Hsel, slice_to_firstn, length_firstn.
  rewrite <- hits_length, hits_pairs, length_map.
  pose proof (adjust_range (len (hit_pairs doc lemma pos_tag)) max_rows
                (len_nonneg _)) as H.
  unfold len in *. lia.
Qed.

(** X1: the keyword column is the surface text of the matching tokens,
    in document order, cut by [[:max_rows]]. *)
Theorem kwic_keywords
    (doc : Doc) (lemma pos_tag : str) (window max_rows : Z) :
  exists rows,
    kwic doc lemma pos_tag window max_rows = Ok rows
    /\ map Keyword rows
       = map text (slice_to (filter (is_hit lemma pos_tag) doc) max_rows).
Proof.
  destruct (kwic_rows doc lemma pos_tag window max_rows)
    as (sel & Hk & Hsel & _).
  exists (map (row_of doc window) sel). split; [exact Hk|].
  rewrite map_map. simpl.
  rewrite <- hit_pairs_snd. unfold slice_to. rewrite slice_map.
  fold (slice_to (hit_pairs doc lemma pos_tag) max_rows).
  rewrite <- Hsel, map_map. reflexivity.
Qed.

(** X2: raising the row cap only appends rows: the rows for a cap are a
    front piece of the rows for any larger cap. *)
Theorem kwic_cap_monotone
    (doc : Doc) (lemma pos_tag : str) (window m m' : Z) :
  0 <= m <= m' ->
  exists rows more,
    kwic doc lemma pos_tag window m = Ok rows
    /\ kwic doc lemma pos_tag window m' = Ok (rows ++ more).
Proof.
  intros Hm.
  destruct (kwic_rows doc lemma pos_tag window m) as (sel & Hk & Hsel & _).
  destruct (kwic_rows doc lemma pos_tag window m')
    as (sel' & Hk' & Hsel' & _).
  rewrite slice_to_nonneg in Hsel, Hsel' by lia.
  exists (map (row_of doc window) sel),
         (map (row_of doc window) (skipn (Z.to_nat m) sel')).
  split; [exact Hk|]. rewrite Hk', <- map_app. do 2 f_equal.
  rewrite <- (firstn_skipn (Z.to_nat m) sel') at 1. f_equal.
  rewrite Hsel, Hsel', firstn_firstn. f_equal. lia.
Qed.

Lemma kwic_cap_monotone_witness :
  exists rows more,
    kwic run_thrice "run" "VERB" 1 1 = Ok rows
    /\ kwic run_thrice "run" "VERB" 1 2 = Ok (rows ++ more).
Proof.
  apply (kwic_cap_monotone run_thrice "run" "VERB" 1 1 2). lia.
Defined.

(** X3: a negative row cap does not switch the cap off: [[:max_rows]]
    then leaves out the last [- max_rows] matches, so the number of rows
    is the number of matches plus [max_rows], or zero. *)
Theorem kwic_negative_cap
    (doc : Doc) (lemma pos_tag : str) (window max_rows : Z) :
  max_rows < 0 ->
  exists rows,
    kwic doc lemma pos_tag window max_rows = Ok rows
    /\ len rows
       = Z.max 0 (len (filter (is_hit lemma pos_tag) doc) + max_rows).
Proof.
  intros Hneg.
  destruct (kwic_len doc lemma pos_tag window max_rows) as (rows & Hk & Hl).
  exists rows. split; [exact Hk|]. rewrite Hl. unfold adjust.
  destruct (max_rows <? 0) eqn:E; [|apply Z.ltb_ge in E; lia].
  f_equal. lia.
Qed.

Lemma kwic_negative_cap_witness :
  exists rows,
    kwic run_thrice "run" "VERB" 1 (-1) = Ok rows
    /\ len rows
       = Z.max 0 (len (filter (is_hit "run" "VERB") run_thrice) + -1).
Proof.
  apply (kwic_negative_cap run_thrice "run" "VERB" 1 (-1)). lia.
Defined.

Lemma firstn_le_prefix {A : Type} (k k' : nat) (l : list A) :
  (k <= k')%nat -> exists more, firstn k' l = firstn k l ++ more.
Proof.
  intros H. exists (skipn k (firstn k' l)).
  rewrite <- (firstn_skipn k (firstn k' l)) at 1. f_equal.
  rewrite firstn_firstn. f_equal. lia.
Qed.

Lemma left_tokens_widen doc w w' i :
  0 <= w <= w' -> 0 <= i < len doc ->
  exists before, left_tokens doc w' i = before ++ left_tokens doc w i.
Proof.
  intros Hw Hi.
  rewrite (Kwic.left_tokens_clip doc w i), (Kwic.left_tokens_clip doc w' i)
    by lia.
  set (a := Z.min w i). set (a' := Z.min w' i).
  assert (Ha : 0 <= a <= a' /\ a' <= i) by lia.
  exists (firstn (Z.to_nat (a' - a)) (skipn (Z.to_nat (i - a')) doc)).
  rewrite <- (firstn_skipn (Z.to_nat (a' - a))
                (skipn (Z.to_nat (i - a')) doc)) at 1.
  rewrite firstn_app, skipn_skipn.
  replace (Z.to_nat (a' - a) + Z.to_nat (i - a'))%nat
    with (Z.to_nat (i - a)) by lia.
  assert (Hlen : List.length
                   (firstn (Z.to_nat (a' - a))
                      (skipn (Z.to_nat (i - a')) doc))
                 = Z.to_nat (a' - a)).
  { rewrite length_firstn, length_skipn. unfold len in *. lia. }
  rewrite Hlen, firstn_all2 by lia. f_equal. f_equal. lia.
Qed.

Lemma right_tokens_widen doc w w' i :
  0 <= w <= w' -> 0 <= i < len doc ->
  exists after, right_tokens doc w' i = right_tokens doc w i ++ after.
Proof.
  intros Hw Hi.
  rewrite (Kwic.right_tokens_clip doc w i),
    (Kwic.right_tokens_clip doc w' i) by lia.
  apply firstn_le_prefix. lia.
Qed.

(** X18: widening the window keeps the rows and their keywords and only
    extends the contexts outward: the tokens of the wider left context
    are further tokens followed by those of the narrower one, the tokens
    of the wider right context are those of the narrower one followed by
    further tokens. *)
Theorem kwic_window_widening
    (doc : Doc) (lemma pos_tag : str) (w w' max_rows : Z) :
  0 <= w <= w' ->
  exists rows rows',
    kwic doc lemma pos_tag w max_rows = Ok rows
    /\ kwic doc lemma pos_tag w' max_rows = Ok rows'
    /\ Forall2
         (fun r r' =>
            Keyword r' = Keyword r
            /\ exists lctx rctx before after,
                 Left r = join " " (map text lctx)
                 /\ Right r = join " " (map text rctx)
                 /\ Left r' = join " " (map text (before ++ lctx))
                 /\ Right r' = join " " (map text (rctx ++ after)))
         rows rows'.
Proof.
  intros Hw.
  destruct (kwic_rows doc lemma pos_tag w max_rows)
    as (sel & Hk & Hsel & _ & HF).
  destruct (kwic_rows doc lemma pos_tag w' max_rows)
    as (sel' & Hk' & Hsel' & _).
  rewrite <- Hsel in Hsel'. subst sel'.
  exists (map (row_of doc w) sel), (map (row_of doc w') sel).
  split; [exact Hk|]. split; [exact Hk'|].
  apply Forall2_map_both. eapply Forall_impl; [|exact HF].
  intros [i t]. cbn [fst snd]. intros (H0 & Hn & _).
  pose proof (nth_error_range _ _ _ H0 Hn) as Hi.
  destruct (left_tokens_widen doc w w' i Hw Hi) as (before & Hl).
  destruct (right_tokens_widen doc w w' i Hw Hi) as (after & Hr).
  split; [reflexivity|].
  exists (left_tokens doc w i), (right_tokens doc w i), before, after.
  unfold row_of. cbn [Left Right fst snd]. rewrite Hl, Hr. auto.
Qed.

Lemma kwic_window_widening_witness :
  exists rows rows',
    kwic the_cat_runs "run" "VERB" 1 default_max_rows = Ok rows
    /\ kwic the_cat_runs "run" "VERB" 2 default_max_rows = Ok rows'
    /\ List.length rows = List.length rows'.
Proof.
  destruct (kwic_window_widening the_cat_runs "run" "VERB" 1 2
              default_max_rows) as (rows & rows' & H1 & H2 & HF).
  - lia.
  - exists rows, rows'. split; [exact H1|]. split; [exact H2|].
    apply (Forall2_length HF).
Defined.

End KwicMore.

(** ** More about the frequency aggregator *)

Module FrequencyMore.

Import PyStr PyStrFacts PyList PyListFacts SFLizer Concordance KwicFacts.
Import Order OrderFacts Tally Filters Readings CounterFacts Frequency.

Lemma get_absent c k : ~ In k (keys c) -> Counter.get c k = 0.
Proof.
  induction c as [|[k' v] r IH]; simpl; intros H.
  - reflexivity.
  - destruct (Str.eqb k k') eqn:E.
    + apply StrFacts.eqb_eq in E. subst k'. exfalso. apply H. now left.
    + apply IH. intros Hin. apply H. now right.
Qed.

Lemma keys_entry c k : In k (keys c) -> exists v, In (k, v) c.
Proof.
  unfold keys. rewrite in_map_iff. intros ([k' v] & E & Hin).
  simpl in E. subst k'. now exists v.
Qed.

Lemma get_perm c c' k :
  NoDup (keys c) -> Permutation c c' -> Counter.get c k = Counter.get c' k.
Proof.
  intros Hnd Hp.
  assert (Hnd' : NoDup (keys c')).
  { eapply Permutation_NoDup; [|exact Hnd]. now apply Permutation_map. }
  destruct (in_dec StrFacts.str_dec k (keys c)) as [Hin|Hni].
  - destruct (keys_entry _ _ Hin) as [v Hv].
    rewrite (get_In c k v Hnd Hv). symmetry.
    apply get_In; [exact Hnd'|]. now apply (Permutation_in _ Hp).
  - rewrite (get_absent _ _ Hni). symmetry. apply get_absent.
    intros Hin. apply Hni.
    apply (Permutation_in _ (Permutation_sym (Permutation_map fst Hp))).
    exact Hin.
Qed.

(** The count listed for a lemma is the number of the qualifying tokens
    with that lemma, also when there is none. *)
Lemma frequency_of_count doc pos_tag label min_len remove_stop l :
  frequency_of (analyze_pos doc pos_tag label min_len remove_stop) l
  = len (filter
           (fun t => (qualifies pos_tag min_len remove_stop t
                      && Str.eqb l (key t))%bool) doc).
Proof.
  unfold frequency_of. rewrite analyze_pos_records.
  unfold Counter.most_common.
  rewrite <- (get_perm _ _ l (keys_of_list_NoDup _)
                (Permutation_sym (sorted_desc_perm _))).
  rewrite get_of_list. apply occurrences_items.
Qed.

Lemma qualifies_weaker pos_tag m1 m2 (rs1 rs2 : bool) t :
  m2 <= m1 -> (rs2 = true -> rs1 = true) ->
  qualifies pos_tag m1 rs1 t = true -> qualifies pos_tag m2 rs2 t = true.
Proof.
  intros Hm Hrs. unfold qualifies, passes_filters, long_enough.
  rewrite !andb_true_iff, !negb_true_iff, !Z.leb_le.
  intros [[[Hp Ha] Hs] Hl]. repeat split; try assumption; [|lia].
  destruct rs2; [|reflexivity]. now rewrite (Hrs eq_refl) in Hs.
Qed.

(** X4: the table has one entry for each lemma under which a token is
    counted, and no other: its lemmas are pairwise different, and a
    lemma is listed exactly if some qualifying token has it. *)
Theorem analyze_pos_keys
    (doc : Doc) (pos_tag label : str) (min_len : Z) (remove_stop : bool) :
  let table := records (analyze_pos doc pos_tag label min_len remove_stop) in
  NoDup (map fst table)
  /\ forall l,
       In l (map fst table) <->
       exists t, In t doc
                 /\ qualifies pos_tag min_len remove_stop t = true
                 /\ lower (lemma_ t) = l.
Proof.
  cbv zeta. rewrite analyze_pos_records. split.
  - apply (most_common_keys_NoDup _ (keys_of_list_NoDup _)).
  - intros l.
    assert (Hp : Permutation
                   (map fst (Counter.most_common
                      (Counter.of_list
                         (map key
                            (filter (qualifies pos_tag min_len remove_stop)
                               doc)))))
                   (keys (Counter.of_list
                            (map key
                               (filter
                                  (qualifies pos_tag min_len remove_stop)
                                  doc))))).
    { apply Permutation_map, sorted_desc_perm. }
    split.
    + intros Hin. apply (Permutation_in _ Hp) in Hin.
      rewrite keys_of_list_In, in_map_iff in Hin.
      destruct Hin as (t & Hk & Ht). apply filter_In in Ht.
      exists t. tauto.
    + intros (t & Ht & Hq & Hk).
      apply (Permutation_in _ (Permutation_sym Hp)).
      rewrite keys_of_list_In. rewrite <- Hk.
      apply (in_map key), filter_In. now split.
Qed.

(** X5: every lemma of the table is in lower case and has at least
    [min_len] characters. *)
Theorem analyze_pos_lemma_shape
    (doc : Doc) (pos_tag label : str) (min_len : Z) (remove_stop : bool) :
  Forall (fun e => lower (fst e) = fst e /\ min_len <= PyStr.len (fst e))
    (records (analyze_pos doc pos_tag label min_len remove_stop)).
Proof.
  rewrite analyze_pos_records. apply Forall_forall. intros [l c] Hin.
  apply most_common_In, of_list_In in Hin. destruct Hin as (Hin & _).
  apply in_map_iff in Hin. destruct Hin as (t & Hk & Ht).
  apply filter_In in Ht. destruct Ht as [_ Hq]. simpl. subst l.
  unfold key. split; [apply lower_idem|].
  unfold qualifies, long_enough in Hq.
  apply andb_true_iff in Hq. destruct Hq as [_ Hl].
  now apply Z.leb_le in Hl.
Qed.

(** X6: counting two documents one after the other adds the counts: the
    count of a lemma in [d1 ++ d2] is its count in [d1] plus its count
    in [d2]. *)
Theorem analyze_pos_concat
    (d1 d2 : Doc) (pos_tag label : str) (min_len : Z)
    (remove_stop : bool) (l : str) :
  frequency_of (analyze_pos (d1 ++ d2) pos_tag label min_len remove_stop) l
  = frequency_of (analyze_pos d1 pos_tag label min_len remove_stop) l
    + frequency_of (analyze_pos d2 pos_tag label min_len remove_stop) l.
Proof.
  rewrite !frequency_of_count, filter_app. apply len_app.
Qed.

(** X7: keeping the stop words or lowering the minimum length never
    lowers a count. *)
Theorem analyze_pos_options_monotone
    (doc : Doc) (pos_tag label : str) (m1 m2 : Z) (rs1 rs2 : bool)
    (l : str) :
  m2 <= m1 -> (rs2 = true -> rs1 = true) ->
  frequency_of (analyze_pos doc pos_tag label m1 rs1) l
  <= frequency_of (analyze_pos doc pos_tag label m2 rs2) l.
Proof.
  intros Hm Hrs. rewrite !frequency_of_count. unfold len.
  apply inj_le, KwicMore.filter_length_le. intros t.
  rewrite !andb_true_iff. intros [Hq Hk]. split; [|exact Hk].
  now apply (qualifies_weaker pos_tag m1 m2 rs1 rs2).
Qed.

Lemma analyze_pos_options_monotone_witness :
  frequency_of (analyze_pos the_cat_runs "ADV" "Adverb" 2 true) "now"
  <= frequency_of (analyze_pos the_cat_runs "ADV" "Adverb" 1 false) "now".
Proof.
  apply (analyze_pos_options_monotone the_cat_runs "ADV" "Adverb"
           2 1 true false "now").
  - lia.
  - discriminate.
Defined.

(** The minimum length counts characters: a lemma of one accented
    letter is dropped at the default minimum of two. *)
Example analyze_pos_counts_characters :
  records (analyze_pos [mkToken "É" "É" "NOUN" true false]
             "NOUN" "Noun" 2 false) = []
  /\ records (analyze_pos [mkToken "É" "É" "NOUN" true false]
                "NOUN" "Noun" 1 false) = [("é", 1)].
Proof. split; reflexivity. Qed.

End FrequencyMore.

(** ** The page: top rows and the lemmas offered for concordance *)

Module Page.

Import PyStr PyStrFacts PyList PyListFacts SFLizer Concordance KwicFacts.
Import Tally Filters Readings CounterFacts Frequency.

Lemma sorted_app_order {A : Type} (R : A -> A -> Prop) (l1 l2 : list A) :
  StronglySorted R (l1 ++ l2) ->
  forall a b, In a l1 -> In b l2 -> R a b.
Proof.
  induction l1 as [|x l1 IH]; simpl; intros Hs a b Ha Hb.
  - destruct Ha.
  - inversion Hs as [|? ? Hs' Hall]; subst. destruct Ha as [->|Ha].
    + rewrite Forall_forall in Hall. apply Hall, in_or_app. now right.
    + now apply IH.
Qed.

Lemma head_records_In df n e :
  In e (records (head df n)) -> In e (records df).
Proof.
  unfold head. simpl. rewrite slice_to_firstn. apply In_firstn.
Qed.

Lemma counted_is_hit pos_tag min_len remove_stop kw t :
  (qualifies pos_tag min_len remove_stop t && Str.eqb kw (key t))%bool
  = true ->
  is_hit kw pos_tag t = true.
Proof.
  unfold qualifies, passes_filters, key, is_hit.
  rewrite !andb_true_iff, !StrFacts.eqb_eq.
  intros [[[[Hp _] _] _] Hk]. split; [|exact Hp].
  subst kw. now rewrite lower_idem.
Qed.

(** X8: with a number of rows that is not negative, [head] shows the
    most frequent lemmas: the table is the shown rows followed by the
    hidden ones, there are [min top_n (number of rows)] shown rows, and
    no hidden lemma has a larger count than a shown one. *)
Theorem head_shows_most_frequent
    (doc : Doc) (pos_tag label : str) (min_len : Z) (remove_stop : bool)
    (top_n : Z) :
  0 <= top_n ->
  let df := analyze_pos doc pos_tag label min_len remove_stop in
  let shown := records (head df top_n) in
  exists hidden,
    records df = shown ++ hidden
    /\ len shown = Z.min top_n (len (records df))
    /\ forall a b, In a shown -> In b hidden -> snd b <= snd a.
Proof.
  intros Hn. cbv zeta. unfold head. cbn [records].
  rewrite slice_to_nonneg by exact Hn.
  set (table := records (analyze_pos doc pos_tag label min_len remove_stop)).
  exists (skipn (Z.to_nat top_n) table).
  split; [now rewrite firstn_skipn|]. split.
  - unfold len. rewrite length_firstn. lia.
  - apply (sorted_app_order (fun a b => snd b <= snd a)).
    rewrite firstn_skipn. unfold table. rewrite analyze_pos_records.
    apply sorted_desc_sorted.
Qed.

Lemma head_shows_most_frequent_witness :
  exists hidden,
    records (analyze_pos the_cat_runs "ADV" "Adverb" 2 false)
    = records (head (analyze_pos the_cat_runs "ADV" "Adverb" 2 false) 1)
      ++ hidden.
Proof.
  destruct (head_shows_most_frequent the_cat_runs "ADV" "Adverb" 2 false 1)
    as (hidden & H & _).
  - lia.
  - now exists hidden.
Defined.

(** X9: a lemma that the table shows has a concordance: called with a
    lemma of the (cut) frequency table, the same tag and a row cap that
    is not negative, the extractor returns at least as many rows as the
    cap and the count of that lemma allow, and the count is positive. *)
Theorem listed_lemma_has_rows
    (doc : Doc) (pos_tag label : str) (min_len : Z) (remove_stop : bool)
    (top_n window max_rows : Z) (kw : str) (count : Z) :
  In (kw, count)
     (records (head (analyze_pos doc pos_tag label min_len remove_stop)
                 top_n)) ->
  0 <= max_rows ->
  exists rows,
    kwic doc kw pos_tag window max_rows = Ok rows
    /\ 0 < count
    /\ Z.min max_rows count <= len rows.
Proof.
  intros Hin Hcap. apply head_records_In in Hin.
  rewrite analyze_pos_records in Hin.
  apply most_common_In, of_list_In in Hin.
  destruct Hin as (_ & Hc & Hpos).
  rewrite occurrences_items in Hc.
  destruct (KwicMore.kwic_len doc kw pos_tag window max_rows)
    as (rows & Hk & Hl).
  exists rows. split; [exact Hk|]. split; [exact Hpos|].
  rewrite Hl. unfold adjust.
  destruct (max_rows <? 0) eqn:E; [apply Z.ltb_lt in E; lia|].
  assert (Hle : count <= len (filter (is_hit kw pos_tag) doc)).
  { rewrite Hc. unfold len. apply inj_le, KwicMore.filter_length_le.
    intros t. apply counted_is_hit. }
  lia.
Qed.

Lemma listed_lemma_has_rows_witness :
  exists rows,
    kwic the_cat_runs "run" "VERB" 4 default_max_rows = Ok rows
    /\ 0 < 1
    /\ Z.min default_max_rows 1 <= len rows.
Proof.
  apply (listed_lemma_has_rows the_cat_runs "VERB" "Verb" 2 true
           30 4 default_max_rows "run" 1).
  - vm_compute. now left.
  - vm_compute. discriminate.
Defined.

End Page.

(** ** The word forms of the chosen lemmas *)

Module FormsFacts.

Import PyStr PyStrFacts PyList PyListFacts SFLizer.
Import Tally Filters Readings CounterFacts Frequency.

Lemma lemma_forms_rows doc lemmas pos_tag :
  lemma_forms doc lemmas pos_tag = forms_rows (forms_of doc lemmas pos_tag).
Proof. reflexivity. Qed.

Lemma forms_of_snoc doc t lemmas pos_tag :
  forms_of (doc ++ [t]) lemmas pos_tag
  = lemma_forms_step lemmas pos_tag (forms_of doc lemmas pos_tag) t.
Proof. unfold forms_of. now rewrite fold_left_app. Qed.

Lemma forms_sum_incr lm form forms :
  forms_sum (forms_incr lm form forms) = forms_sum forms + 1.
Proof.
  induction forms as [|[k ctr] r IH]; simpl.
  - reflexivity.
  - destruct (Str.eqb lm k); simpl.
    + rewrite total_incr. lia.
    + rewrite IH. lia.
Qed.

Lemma forms_total_app r1 r2 :
  forms_total (r1 ++ r2) = forms_total r1 + forms_total r2.
Proof.
  induction r1 as [|r r1 IH]; simpl; [reflexivity|]. rewrite IH. lia.
Qed.

Lemma forms_total_counter lm (ctr : Counter.t) :
  forms_total (map (fun e => mkFormRow lm (fst e) (snd e)) ctr) = total ctr.
Proof.
  induction ctr as [|e ctr IH]; simpl; [reflexivity|]. now rewrite IH.
Qed.

Lemma forms_total_rows forms : forms_total (forms_rows forms) = forms_sum forms.
Proof.
  induction forms as [|[k ctr] r IH]; [reflexivity|].
  unfold forms_rows in *. cbn [flat_map fst snd].
  rewrite forms_total_app, forms_total_counter, IH. reflexivity.
Qed.

Lemma forms_get_incr lm form forms lm' :
  forms_get (forms_incr lm form forms) lm'
  = if Str.eqb lm' lm then Counter.incr form (forms_get forms lm')
    else forms_get forms lm'.
Proof.
  induction forms as [|[k ctr] r IH]; simpl.
  - destruct (Str.eqb lm' lm); reflexivity.
  - destruct (Str.eqb lm k) eqn:E; simpl.
    + apply StrFacts.eqb_eq in E. subst k.
      destruct (Str.eqb lm' lm); reflexivity.
    + rewrite IH. destruct (Str.eqb lm' k) eqn:E'; [|reflexivity].
      apply StrFacts.eqb_eq in E'. subst k.
      rewrite StrFacts.eqb_sym in E. now rewrite E.
Qed.

Lemma forms_keys_incr lm form forms :
  map fst (forms_incr lm form forms)
  = if existsb (Str.eqb lm) (map fst forms) then map fst forms
    else map fst forms ++ [lm].
Proof.
  induction forms as [|[k ctr] r IH]; simpl.
  - reflexivity.
  - destruct (Str.eqb lm k) eqn:E; simpl.
    + reflexivity.
    + rewrite IH. now destruct (existsb (Str.eqb lm) (map fst r)).
Qed.

(** The texts of the selected tokens with lemma [lm]. *)
Lemma forms_get_of doc lemmas pos_tag lm :
  forms_get (forms_of doc lemmas pos_tag) lm
  = Counter.of_list
      (map text
         (filter (fun t => (selected lemmas pos_tag t
                            && Str.eqb lm (lower (lemma_ t)))%bool) doc)).
Proof.
  induction doc as [|t doc IH] using rev_ind.
  - reflexivity.
  - rewrite forms_of_snoc, filter_app, map_app. unfold lemma_forms_step.
    fold (selected lemmas pos_tag t). simpl.
    destruct (selected lemmas pos_tag t); simpl.
    + rewrite forms_get_incr, IH.
      destruct (Str.eqb lm (lower (lemma_ t))); simpl.
      * now rewrite of_list_snoc.
      * now rewrite app_nil_r.
    + now rewrite app_nil_r.
Qed.

Lemma forms_keys_In doc lemmas pos_tag lm :
  In lm (map fst (forms_of doc lemmas pos_tag)) <->
  exists t, In t doc /\ selected lemmas pos_tag t = true
            /\ lower (lemma_ t) = lm.
Proof.
  revert lm. induction doc as [|t doc IH] using rev_ind; intros lm.
  - simpl. split; [tauto|]. intros (t & [] & _).
  - rewrite forms_of_snoc. unfold lemma_forms_step.
    fold (selected lemmas pos_tag t).
    assert (Hold : (exists u, In u doc /\ selected lemmas pos_tag u = true
                              /\ lower (lemma_ u) = lm) ->
                   exists u, In u (doc ++ [t])
                             /\ selected lemmas pos_tag u = true
                             /\ lower (lemma_ u) = lm).
    { intros (u & Hu & H). exists u. split; [|exact H].
      apply in_or_app. now left. }
    destruct (selected lemmas pos_tag t) eqn:Es.
    + rewrite forms_keys_incr.
      destruct (existsb (Str.eqb (lower (lemma_ t)))
                  (map fst (forms_of doc lemmas pos_tag))) eqn:Ee.
      * rewrite IH. split; [exact Hold|].
        intros (u & Hu & Hs & Hl). apply in_app_or in Hu.
        destruct Hu as [Hu|[->|[]]]; [now exists u|].
        rewrite existsb_eqb_In, IH in Ee. now rewrite <- Hl.
      * rewrite in_app_iff, IH. simpl. split.
        -- intros [H|[<-|[]]]; [now apply Hold|].
           exists t. split; [|now split].
           apply in_or_app. right. now left.
        -- intros (u & Hu & Hs & Hl). apply in_app_or in Hu.
           destruct Hu as [Hu|[->|[]]]; [left; now exists u|].
           right. now left.
    + rewrite IH. split; [exact Hold|].
      intros (u & Hu & Hs & Hl). apply in_app_or in Hu.
      destruct Hu as [Hu|[->|[]]]; [now exists u|congruence].
Qed.

Lemma forms_keys_NoDup doc lemmas pos_tag :
  NoDup (map fst (forms_of doc lemmas pos_tag)).
Proof.
  induction doc as [|t doc IH] using rev_ind.
  - constructor.
  - rewrite forms_of_snoc. unfold lemma_forms_step.
    destruct (Str.eqb (pos_ t) pos_tag
              && existsb (Str.eqb (lower (lemma_ t))) lemmas)%bool;
      [|exact IH].
    rewrite forms_keys_incr.
    destruct (existsb (Str.eqb (lower (lemma_ t)))
                (map fst (forms_of doc lemmas pos_tag))) eqn:Ee;
      [exact IH|].
    apply NoDup_app; [exact IH|repeat constructor; intros []|].
    intros k Hin [<-|[]]. rewrite <- existsb_eqb_In in Hin. congruence.
Qed.

Lemma forms_get_In (forms : Forms) lm ctr :
  NoDup (map fst forms) -> In (lm, ctr) forms -> forms_get forms lm = ctr.
Proof.
  induction forms as [|[k c] r IH]; simpl; intros Hnd Hin.
  - destruct Hin.
  - inversion Hnd as [|? ? Hni Hnd']; subst. destruct Hin as [E|Hin].
    + inversion E; subst. now rewrite StrFacts.eqb_refl.
    + destruct (Str.eqb lm k) eqn:E.
      * apply StrFacts.eqb_eq in E. subst k. exfalso. apply Hni.
        change lm with (fst (lm, ctr)). now apply in_map.
      * now apply IH.
Qed.

Lemma forms_get_absent (forms : Forms) lm :
  ~ In lm (map fst forms) -> forms_get forms lm = [].
Proof.
  induction forms as [|[k c] r IH]; simpl; intros H.
  - reflexivity.
  - destruct (Str.eqb lm k) eqn:E.
    + apply StrFacts.eqb_eq in E. subst k. exfalso. apply H. now left.
    + apply IH. intros Hin. apply H. now right.
Qed.

Lemma forms_rows_In (forms : Forms) lm form freq :
  In (mkFormRow lm form freq) (forms_rows forms) <->
  exists ctr, In (lm, ctr) forms /\ In (form, freq) ctr.
Proof.
  unfold forms_rows. rewrite in_flat_map. split.
  - intros ([k ctr] & Hin & Hr). simpl in Hr. apply in_map_iff in Hr.
    destruct Hr as ([f q] & E & He). simpl in E. inversion E; subst.
    now exists ctr.
  - intros (ctr & Hin & He). exists (lm, ctr). split; [exact Hin|].
    simpl. apply in_map_iff. now exists (form, freq).
Qed.

Lemma of_list_entry items k :
  In k items -> In (k, occurrences k items) (Counter.of_list items).
Proof.
  intros Hin. apply keys_of_list_In in Hin.
  apply in_map_iff in Hin. destruct Hin as ([k' v] & E & Hv).
  simpl in E. subst k'.
  destruct (of_list_In _ _ _ Hv) as (_ & -> & _). exact Hv.
Qed.

Lemma occurrences_map {A : Type} (f : A -> str) k (q : A -> bool) l :
  occurrences k (map f (filter q l))
  = len (filter (fun x => (q x && Str.eqb k (f x))%bool) l).
Proof.
  unfold occurrences, len. f_equal.
  induction l as [|x l IH]; simpl.
  - reflexivity.
  - destruct (q x); simpl; [|exact IH].
    destruct (Str.eqb k (f x)); simpl; now rewrite IH.
Qed.

Lemma selected_has_lemma lemmas pos_tag lm t :
  In lm lemmas ->
  (selected lemmas pos_tag t && Str.eqb lm (lower (lemma_ t)))%bool
  = has_lemma pos_tag lm t.
Proof.
  intros Hin. unfold selected, has_lemma.
  rewrite (StrFacts.eqb_sym lm).
  destruct (Str.eqb (lower (lemma_ t)) lm) eqn:E.
  - apply StrFacts.eqb_eq in E. rewrite E.
    rewrite <- existsb_eqb_In in Hin. rewrite Hin.
    now rewrite !andb_true_r.
  - now rewrite !andb_false_r.
Qed.

Lemma forms_counter_NoDup doc lemmas pos_tag :
  Forall (fun lc => NoDup (keys (snd lc))) (forms_of doc lemmas pos_tag).
Proof.
  apply Forall_forall. intros [lm ctr] Hin. simpl.
  rewrite <- (forms_get_In _ _ _ (forms_keys_NoDup doc lemmas pos_tag) Hin).
  rewrite forms_get_of. apply keys_of_list_NoDup.
Qed.

Lemma pair_keys_NoDup (k : str) (ctr : Counter.t) :
  NoDup (keys ctr) -> NoDup (map (fun e => (k, fst e)) ctr).
Proof.
  unfold keys. induction ctr as [|e ctr IH]; simpl; intros H.
  - constructor.
  - inversion H as [|? ? Hni Hnd]; subst. constructor; [|now apply IH].
    intros Hin. apply Hni. apply in_map_iff in Hin.
    destruct Hin as (e' & E & He'). injection E as E'.
    rewrite <- E'. now apply in_map.
Qed.

Lemma forms_rows_NoDup (forms : Forms) :
  NoDup (map fst forms) ->
  Forall (fun lc => NoDup (keys (snd lc))) forms ->
  NoDup (map (fun r => (Lemma_ r, Form r)) (forms_rows forms)).
Proof.
  induction forms as [|[k ctr] r IH]; intros Hnd Hall.
  - constructor.
  - inversion Hnd as [|? ? Hni Hnd']; subst.
    inversion Hall as [|? ? Hc Hall']; subst. simpl in Hc.
    unfold forms_rows in *. cbn [flat_map fst snd].
    rewrite map_app, map_map. cbn [Lemma_ Form].
    apply NoDup_app.
    + now apply pair_keys_NoDup.
    + now apply IH.
    + intros [lm form] H1 H2. apply Hni.
      apply in_map_iff in H1. destruct H1 as (e & E & _).
      inversion E; subst lm.
      apply in_map_iff in H2. destruct H2 as ([lm' f' q'] & E' & Hr).
      simpl in E'. inversion E'; subst lm' f'.
      apply (forms_rows_In r k form q') in Hr.
      destruct Hr as (c & Hin & _).
      change k with (fst (k, c)). now apply in_map.
Qed.

(** X10: the frequencies of the word-form table add up to the number of
    tokens whose tag is the target tag and whose lower-cased lemma is
    one of [lemmas]; the alphabetic and stop-word filters of the
    frequency table play no part. *)
Theorem lemma_forms_total
    (doc : Doc) (lemmas : list str) (pos_tag : str) :
  forms_total (lemma_forms doc lemmas pos_tag)
  = len (filter
           (fun t => (Str.eqb (pos_ t) pos_tag
                      && existsb (Str.eqb (lower (lemma_ t))) lemmas)%bool)
           doc).
Proof.
  rewrite lemma_forms_rows, forms_total_rows.
  induction doc as [|t doc IH] using rev_ind.
  - reflexivity.
  - rewrite forms_of_snoc, filter_app, len_app, <- IH.
    unfold lemma_forms_step. simpl.
    destruct (Str.eqb (pos_ t) pos_tag
              && existsb (Str.eqb (lower (lemma_ t))) lemmas)%bool.
    + now rewrite forms_sum_incr.
    + unfold len. simpl. lia.
Qed.

(** X11: the word-form table has exactly one row for each pair of a
    lemma of [lemmas] and a surface form in which a token with the
    target tag and that lemma occurs; its frequency is the number of
    those tokens.  Surface forms are told apart by case, lemmas are
    compared after lower-casing the token's lemma only. *)
Theorem lemma_forms_row
    (doc : Doc) (lemmas : list str) (pos_tag : str) :
  let rows := lemma_forms doc lemmas pos_tag in
  NoDup (map (fun r => (Lemma_ r, Form r)) rows)
  /\ forall r,
       In r rows <->
       In (Lemma_ r) lemmas
       /\ 0 < Frequency r
       /\ Frequency r
          = len (filter
                   (fun t => (has_lemma pos_tag (Lemma_ r) t
                              && Str.eqb (Form r) (text t))%bool) doc).
Proof.
  cbv zeta. rewrite lemma_forms_rows. split.
  - apply forms_rows_NoDup;
      [apply forms_keys_NoDup|apply forms_counter_NoDup].
  - intros [lm form freq]. cbn [Lemma_ Form Frequency].
    rewrite forms_rows_In. split.
    + intros (ctr & Hlm & He).
      assert (Hk : In lm (map fst (forms_of doc lemmas pos_tag))).
      { change lm with (fst (lm, ctr)). now apply in_map. }
      apply forms_keys_In in Hk. destruct Hk as (t & _ & Hs & Hl).
      assert (Hin : In lm lemmas).
      { unfold selected in Hs. apply andb_true_iff in Hs.
        destruct Hs as [_ Hs]. rewrite existsb_eqb_In in Hs.
        now rewrite <- Hl. }
      rewrite <- (forms_get_In _ _ _ (forms_keys_NoDup _ _ _) Hlm) in He.
      rewrite forms_get_of in He. apply of_list_In in He.
      destruct He as (_ & Hf & Hpos).
      split; [exact Hin|]. split; [exact Hpos|].
      rewrite Hf, occurrences_map. f_equal. apply filter_ext.
      intros u. now rewrite selected_has_lemma.
    + intros (Hin & Hpos & Hf).
      set (p := fun t => (has_lemma pos_tag lm t
                          && Str.eqb form (text t))%bool) in *.
      assert (Hex : exists t, In t (filter p doc)).
      { destruct (filter p doc) as [|t l] eqn:E.
        - unfold len in Hf. simpl in Hf. lia.
        - exists t. now left. }
      destruct Hex as (t & Ht). apply filter_In in Ht.
      destruct Ht as [Ht Hp]. unfold p in Hp.
      apply andb_true_iff in Hp. destruct Hp as [Hh Hform].
      apply StrFacts.eqb_eq in Hform.
      assert (Hsel : (selected lemmas pos_tag t
                      && Str.eqb lm (lower (lemma_ t)))%bool = true).
      { now rewrite selected_has_lemma. }
      apply andb_true_iff in Hsel. destruct Hsel as [Hs Hl].
      apply StrFacts.eqb_eq in Hl.
      assert (Hk : In lm (map fst (forms_of doc lemmas pos_tag))).
      { apply forms_keys_In. exists t. auto. }
      apply in_map_iff in Hk. destruct Hk as ([lm' ctr] & E & Hlm).
      simpl in E. subst lm'. exists ctr. split; [exact Hlm|].
      rewrite <- (forms_get_In _ _ _ (forms_keys_NoDup _ _ _) Hlm).
      rewrite forms_get_of.
      assert (Hocc : freq
                = occurrences form
                    (map text
                       (filter
                          (fun u => (selected lemmas pos_tag u
                                     && Str.eqb lm (lower (lemma_ u)))%bool)
                          doc))).
      { rewrite Hf, occurrences_map. f_equal. apply filter_ext.
        intros u. unfold p. now rewrite selected_has_lemma. }
      rewrite Hocc. apply of_list_entry.
      rewrite Hform. apply in_map, filter_In. split; [exact Ht|].
      rewrite Hs. simpl. apply StrFacts.eqb_eq. exact Hl.
Qed.

Lemma filter_lemma_counter k l (ctr : Counter.t) :
  filter (fun r => Str.eqb (Lemma_ r) l)
    (map (fun e => mkFormRow k (fst e) (snd e)) ctr)
  = if Str.eqb k l then map (fun e => mkFormRow k (fst e) (snd e)) ctr
    else [].
Proof.
  induction ctr as [|e ctr IH]; simpl.
  - now destruct (Str.eqb k l).
  - rewrite IH. now destruct (Str.eqb k l).
Qed.

Lemma forms_total_of_lemma (forms : Forms) l :
  NoDup (map fst forms) ->
  forms_total (filter (fun r => Str.eqb (Lemma_ r) l) (forms_rows forms))
  = total (forms_get forms l).
Proof.
  induction forms as [|[k ctr] r IH]; intros Hnd.
  - reflexivity.
  - inversion Hnd as [|? ? Hni Hnd']; subst.
    unfold forms_rows in *. cbn [flat_map fst snd forms_get].
    rewrite filter_app, forms_total_app, filter_lemma_counter, (IH Hnd').
    rewrite (StrFacts.eqb_sym l k).
    destruct (Str.eqb k l) eqn:E.
    + apply StrFacts.eqb_eq in E. subst k.
      rewrite forms_total_counter, (forms_get_absent _ _ Hni).
      simpl. lia.
    + reflexivity.
Qed.

(** X12: for a chosen lemma the word-form table accounts for every token
    with the target tag and that lemma, so its frequencies for the lemma
    add up to at least the count the frequency table lists for it,
    whatever the minimum length and the stop-word option: the word-form
    table also counts the tokens that are not alphabetic or are stop
    words. *)
Theorem lemma_forms_covers_table
    (doc : Doc) (lemmas : list str) (pos_tag label : str)
    (min_len : Z) (remove_stop : bool) (l : str) :
  In l lemmas ->
  let of_l := filter (fun r => Str.eqb (Lemma_ r) l)
                (lemma_forms doc lemmas pos_tag) in
  forms_total of_l = len (filter (has_lemma pos_tag l) doc)
  /\ frequency_of (analyze_pos doc pos_tag label min_len remove_stop) l
     <= forms_total of_l.
Proof.
  intros Hin. cbv zeta.
  assert (Hsum : forms_total
                   (filter (fun r => Str.eqb (Lemma_ r) l)
                      (lemma_forms doc lemmas pos_tag))
                 = len (filter (has_lemma pos_tag l) doc)).
  { rewrite lemma_forms_rows, forms_total_of_lemma
      by apply forms_keys_NoDup.
    rewrite forms_get_of, total_of_list. unfold len.
    rewrite length_map. do 2 f_equal. apply filter_ext.
    intros t. now apply selected_has_lemma. }
  split; [exact Hsum|]. rewrite Hsum, FrequencyMore.frequency_of_count.
  unfold len. apply inj_le, KwicMore.filter_length_le. intros t.
  unfold qualifies, passes_filters, key, has_lemma.
  rewrite !andb_true_iff, !StrFacts.eqb_eq.
  intros [[[[Hp _] _] _] Hk]. split; [exact Hp|now symmetry].
Qed.

Lemma lemma_forms_covers_table_witness :
  frequency_of (analyze_pos Concordance.run_thrice "VERB" "Verb" 2 true) "run"
  <= forms_total
       (filter (fun r => Str.eqb (Lemma_ r) "run")
          (lemma_forms Concordance.run_thrice ["run"] "VERB")).
Proof.
  apply (lemma_forms_covers_table Concordance.run_thrice ["run"]
           "VERB" "Verb" 2 true "run").
  now left.
Defined.

(** X19: the two helpers treat the case of a chosen lemma differently.
    [lemma_forms] lower-cases the token's lemma only, so a chosen lemma
    with an upper-case letter gets no row; [kwic] lower-cases both, so
    it returns for such a lemma what it returns for its lower-case
    form. *)
Theorem chosen_lemma_case
    (doc : Doc) (lemmas : list str) (pos_tag l : str)
    (window max_rows : Z) :
  lower l <> l ->
  filter (fun r => Str.eqb (Lemma_ r) l) (lemma_forms doc lemmas pos_tag)
  = []
  /\ kwic doc l pos_tag window max_rows
     = kwic doc (lower l) pos_tag window max_rows.
Proof.
  intros Hcase. split.
  - destruct (filter (fun r => Str.eqb (Lemma_ r) l)
                (lemma_forms doc lemmas pos_tag)) as [|r rest] eqn:E;
      [reflexivity|].
    assert (Hr : In r (filter (fun r => Str.eqb (Lemma_ r) l)
                         (lemma_forms doc lemmas pos_tag)))
      by (rewrite E; now left).
    apply filter_In in Hr. destruct Hr as [Hr Hl].
    apply StrFacts.eqb_eq in Hl. destruct r as [lm form freq].
    simpl in Hl. subst lm.
    rewrite lemma_forms_rows in Hr. apply forms_rows_In in Hr.
    destruct Hr as (ctr & Hin & _).
    assert (Hk : In l (map fst (forms_of doc lemmas pos_tag))).
    { change l with (fst (l, ctr)). now apply in_map. }
    apply forms_keys_In in Hk. destruct Hk as (t & _ & _ & Ht).
    exfalso. apply Hcase. rewrite <- Ht. apply lower_idem.
  - unfold kwic, hits, is_hit. now rewrite lower_idem.
Qed.

Lemma chosen_lemma_case_witness :
  filter (fun r => Str.eqb (Lemma_ r) "Run")
    (lemma_forms Concordance.run_thrice ["Run"] "VERB")
  = []
  /\ kwic Concordance.run_thrice "Run" "VERB" 2 50
     = kwic Concordance.run_thrice (lower "Run") "VERB" 2 50.
Proof.
  apply (chosen_lemma_case Concordance.run_thrice ["Run"] "VERB" "Run" 2 50).
  discriminate.
Defined.

Example lemma_forms_capital :
  lemma_forms [mkToken "États" "État" "NOUN" true false] ["État"] "NOUN"
  = []
  /\ lemma_forms [mkToken "États" "État" "NOUN" true false] ["état"] "NOUN"
     = [mkFormRow "état" "États" 1].
Proof. split; reflexivity. Qed.

End FormsFacts.

(** ** The verb table of [analyze_text] *)

Module VerbTable.

Import PyStr PyStrFacts PyList PyListFacts StreamlitApp.
Import Tally Readings CounterFacts Classifier.

Lemma verbs_lemmas doc :
  map snd (verbs doc) = map (fun t => lower (lemma_ t)) (filter is_verb doc).
Proof. unfold verbs. now rewrite map_map. Qed.

Lemma verbs_total_rows (c : Counter.t) :
  verbs_total
    (map (fun e => mkVerbRow (fst e) (snd e) (sfl_process (fst e))) c)
  = total c.
Proof.
  induction c as [|e c IH]; simpl; [reflexivity|]. now rewrite IH.
Qed.

Lemma verbs_total_perm r1 r2 :
  Permutation r1 r2 -> verbs_total r1 = verbs_total r2.
Proof. induction 1; simpl; lia. Qed.

Lemma is_verb_iff t :
  is_verb t = true <->
  (pos_ t = "VERB" \/ pos_ t = "AUX") /\ is_alpha t = true.
Proof.
  unfold is_verb. simpl. rewrite andb_true_iff, !orb_true_iff.
  rewrite !StrFacts.eqb_eq. intuition discriminate.
Qed.

(** The rows before sorting, one by one. *)
Lemma analyze_text_rows_In doc r :
  In r (analyze_text_rows doc) ->
  SFL_Process r = sfl_process (Verb r)
  /\ 0 < Frequency r
  /\ exists t, In t doc /\ is_verb t = true /\ lower (lemma_ t) = Verb r.
Proof.
  unfold analyze_text_rows. rewrite in_map_iff.
  intros ([k v] & <- & Hin). simpl.
  apply of_list_In in Hin. destruct Hin as (Hk & _ & Hpos).
  split; [reflexivity|]. split; [exact Hpos|].
  rewrite verbs_lemmas in Hk. apply in_map_iff in Hk.
  destruct Hk as (t & Ht & Hf). apply filter_In in Hf.
  exists t. tauto.
Qed.

(** X13: whatever order the sort leaves among rows of one frequency, the
    frame [analyze_text] returns has one row for each lower-cased lemma
    of an alphabetic token tagged [VERB] or [AUX] and no other row, its
    verbs are pairwise different, its frequencies are positive, not
    increasing down the frame, and add up to the number of those
    tokens. *)
Theorem analyze_text_accounts (doc : Doc) (df : list VerbRow) :
  analyze_text_returns doc df ->
  verbs_total df = len (filter is_verb doc)
  /\ NoDup (map Verb df)
  /\ StronglySorted (fun a b => Frequency b <= Frequency a) df
  /\ Forall (fun r => 0 < Frequency r) df
  /\ forall v,
       In v (map Verb df) <->
       exists t, In t doc
                 /\ (pos_ t = "VERB" \/ pos_ t = "AUX")
                 /\ is_alpha t = true
                 /\ lower (lemma_ t) = v.
Proof.
  intros (_ & Hp & Hs).
  assert (Hverbs : map Verb (analyze_text_rows doc)
                   = keys (Counter.of_list (map snd (verbs doc)))).
  { unfold analyze_text_rows. now rewrite map_map. }
  split; [|split; [|split; [exact Hs|split]]].
  - rewrite (verbs_total_perm _ _ Hp). unfold analyze_text_rows.
    rewrite verbs_total_rows, total_of_list, verbs_lemmas.
    unfold len. now rewrite length_map.
  - apply (Permutation_NoDup (Permutation_sym (Permutation_map Verb Hp))).
    rewrite Hverbs. apply keys_of_list_NoDup.
  - apply (Permutation_Forall (Permutation_sym Hp)).
    apply Forall_forall. intros r Hr.
    now apply analyze_text_rows_In in Hr.
  - intros v. split.
    + intros Hin. apply (Permutation_in _ (Permutation_map Verb Hp)) in Hin.
      rewrite Hverbs, keys_of_list_In, verbs_lemmas, in_map_iff in Hin.
      destruct Hin as (t & Hl & Hf). apply filter_In in Hf.
      destruct Hf as [Ht Hv]. apply is_verb_iff in Hv.
      exists t. tauto.
    + intros (t & Ht & Hpos & Ha & Hl).
      apply (Permutation_in _
               (Permutation_sym (Permutation_map Verb Hp))).
      rewrite Hverbs, keys_of_list_In, verbs_lemmas, <- Hl.
      apply (in_map (fun u => lower (lemma_ u))), filter_In.
      split; [exact Ht|]. apply is_verb_iff. tauto.
Qed.

Lemma analyze_text_accounts_witness :
  verbs_total (analyze_text_rows Concordance.the_cat_runs)
  = len (filter is_verb Concordance.the_cat_runs).
Proof.
  apply (analyze_text_accounts Concordance.the_cat_runs
           (analyze_text_rows Concordance.the_cat_runs)).
  split; [discriminate|]. split.
  - apply Permutation_refl.
  - vm_compute. repeat constructor.
Defined.

(** X14: in the frame [analyze_text] returns every row carries the
    category the table stores for its verb, or ["Material"] if the verb
    is not a key of the table, and that category is one of the six; the
    verb is in lower case, so tokens whose lemmas differ only in case
    share one row and one category. *)
Theorem analyze_text_processes (doc : Doc) (df : list VerbRow) :
  analyze_text_returns doc df ->
  Forall
    (fun r =>
       lower (Verb r) = Verb r
       /\ In (SFL_Process r) categories
       /\ (forall category,
             In (Verb r, category) sfl_map -> SFL_Process r = category)
       /\ (~ In (Verb r) (map fst sfl_map) -> SFL_Process r = "Material"))
    df
  /\ forall t,
       In t doc -> is_verb t = true ->
       exists r, In r df /\ Verb r = lower (lemma_ t)
                 /\ SFL_Process r = classify (lemma_ t).
Proof.
  intros (_ & Hp & Hs). split.
  - apply (Permutation_Forall (Permutation_sym Hp)).
    apply Forall_forall. intros r Hr.
    apply analyze_text_rows_In in Hr.
    destruct Hr as (Hproc & _ & t & _ & _ & Hl).
    split; [rewrite <- Hl; apply lower_idem|]. rewrite Hproc.
    split; [apply sfl_process_category|]. split.
    + intros category Hin.
      apply dict_get_present; [apply sfl_map_keys_NoDup|exact Hin].
    + intros Hni. now apply dict_get_absent.
  - intros t Ht Hv.
    destruct (analyze_text_rows_classify doc t Ht Hv) as (r & Hr & H).
    exists r. split; [|exact H].
    now apply (Permutation_in _ (Permutation_sym Hp)).
Qed.

Lemma analyze_text_processes_witness :
  exists r, In r (analyze_text_rows Concordance.the_cat_runs)
            /\ Verb r = "run" /\ SFL_Process r = "Material".
Proof.
  destruct (analyze_text_processes Concordance.the_cat_runs
              (analyze_text_rows Concordance.the_cat_runs)) as [_ H].
  - split; [discriminate|]. split.
    + apply Permutation_refl.
    + vm_compute. repeat constructor.
  - apply (H (mkToken "runs" "run" "VERB" true false)).
    + simpl. tauto.
    + reflexivity.
Defined.

Lemma sorted_rows (c : Counter.t) :
  StronglySorted by_count_desc c ->
  StronglySorted (fun a b => Frequency b <= Frequency a)
    (map (fun e => mkVerbRow (fst e) (snd e) (sfl_process (fst e))) c).
Proof.
  induction 1 as [|e c _ IH Hall]; simpl; constructor.
  - exact IH.
  - apply Forall_map. eapply Forall_impl; [|exact Hall].
    intros x Hx. exact Hx.
Qed.

(** X17: [analyze_text] raises [KeyError] exactly on a document without
    an alphabetic token tagged [VERB] or [AUX]: then there are no rows,
    and the frame to be sorted has no column ["Frequency"].  On every
    other document it returns a frame. *)
Theorem analyze_text_without_verbs (doc : Doc) :
  (analyze_text_raises doc <->
   forall t, In t doc ->
             ~ ((pos_ t = "VERB" \/ pos_ t = "AUX") /\ is_alpha t = true))
  /\ (analyze_text_raises doc \/ exists df, analyze_text_returns doc df).
Proof.
  unfold analyze_text_raises, analyze_text_returns. split.
  - split.
    + intros Hnil t Ht Hv. apply is_verb_iff in Hv.
      destruct (analyze_text_rows_classify doc t Ht Hv) as (r & Hr & _).
      rewrite Hnil in Hr. destruct Hr.
    + intros Hno. unfold analyze_text_rows. rewrite verbs_lemmas.
      destruct (filter is_verb doc) as [|t l] eqn:E; [reflexivity|].
      assert (Ht : In t (filter is_verb doc)) by (rewrite E; now left).
      apply filter_In in Ht. destruct Ht as [Ht Hv].
      apply is_verb_iff in Hv. destruct (Hno t Ht Hv).
  - destruct (analyze_text_rows doc) as [|r rows] eqn:E; [now left|].
    right. unfold analyze_text_rows in E.
    exists (map (fun e => mkVerbRow (fst e) (snd e) (sfl_process (fst e)))
              (Counter.sorted_desc
                 (Counter.of_list (map snd (verbs doc))))).
    split; [discriminate|]. split.
    + rewrite <- E. apply Permutation_map, sorted_desc_perm.
    + apply sorted_rows, sorted_desc_sorted.
Qed.

(** A lemma written with the Kelvin sign U+212A is counted and
    classified as ["know"]. *)
Example analyze_text_rows_kelvin :
  analyze_text_rows [mkToken "KNOW" (8490%N :: "NOW") "VERB" true false]
  = [mkVerbRow "know" 1 "Mental"].
Proof. reflexivity. Qed.

End VerbTable.

(** ** The text handed to the annotator *)

Module Text.

Import PyText Readings.

Lemma lstrip_split s : exists sp, s = sp ++ lstrip s /\ blank sp.
Proof.
  induction s as [|c r (sp & Hs & Hb)]; simpl.
  - exists []. split; [reflexivity|constructor].
  - destruct (is_space c) eqn:E.
    + exists (c :: sp). simpl. split; [now rewrite <- Hs|].
      now constructor.
    + exists []. split; [reflexivity|constructor].
Qed.

Lemma lstrip_head s c r : lstrip s = c :: r -> is_space c = false.
Proof.
  induction s as [|x s IH]; simpl; [discriminate|].
  destruct (is_space x) eqn:E; [exact IH|].
  intros H. inversion H; subst. exact E.
Qed.

Lemma lstrip_nil s : lstrip s = [] <-> blank s.
Proof.
  induction s as [|x s IH]; simpl.
  - split; [constructor|reflexivity].
  - destruct (is_space x) eqn:E.
    + rewrite IH. split; [now constructor|]. intros H. now inversion H.
    + split; [discriminate|]. intros H. inversion H; subst. congruence.
Qed.

Lemma blank_rev s : blank (rev s) <-> blank s.
Proof.
  unfold blank. rewrite !Forall_forall.
  split; intros H c Hc; apply H; [now apply in_rev in Hc|].
  now apply in_rev.
Qed.

Lemma rstrip_split s : exists sp, s = rstrip s ++ sp /\ blank sp.
Proof.
  destruct (lstrip_split (rev s)) as (sp & Hs & Hb).
  exists (rev sp). split; [|now apply blank_rev].
  unfold rstrip. rewrite <- rev_app_distr, <- Hs. now rewrite rev_involutive.
Qed.

Lemma rstrip_last s r c : rstrip s = r ++ [c] -> is_space c = false.
Proof.
  unfold rstrip. intros H. apply (f_equal (@rev N)) in H.
  rewrite rev_involutive, rev_app_distr in H. simpl in H.
  now apply lstrip_head in H.
Qed.

Lemma rstrip_nil s : rstrip s = [] <-> blank s.
Proof.
  unfold rstrip. rewrite <- blank_rev, <- lstrip_nil. split.
  - intros H. apply (f_equal (@rev N)) in H.
    now rewrite rev_involutive in H.
  - intros ->. reflexivity.
Qed.

Lemma rstrip_head c r :
  is_space c = false -> exists r', rstrip (c :: r) = c :: r'.
Proof.
  intros E. destruct (rstrip_split (c :: r)) as (sp & Hs & Hb).
  destruct (rstrip (c :: r)) as [|c' r'] eqn:Er.
  - simpl in Hs. subst sp. inversion Hb; subst. congruence.
  - simpl in Hs. inversion Hs; subst. now exists r'.
Qed.

Lemma strip_head s c r : strip s = c :: r -> is_space c = false.
Proof.
  unfold strip. destruct (lstrip s) as [|c0 r0] eqn:El.
  - discriminate.
  - pose proof (lstrip_head _ _ _ El) as E0.
    destruct (rstrip_head c0 r0 E0) as (r' & Hr). rewrite Hr.
    intros H. inversion H; subst. exact E0.
Qed.

Lemma strip_nil s : strip s = [] <-> blank s.
Proof.
  unfold strip. rewrite rstrip_nil. split.
  - intros Hb. apply lstrip_nil. destruct (lstrip s) as [|c r] eqn:El.
    + reflexivity.
    + apply lstrip_head in El. inversion Hb; subst. congruence.
  - intros Hb. apply lstrip_nil in Hb. rewrite Hb. constructor.
Qed.

Lemma blank_app s1 s2 : blank (s1 ++ s2) <-> blank s1 /\ blank s2.
Proof. apply Forall_app. Qed.

Lemma join_blank parts :
  blank (join space parts) <-> Forall blank parts.
Proof.
  induction parts as [|x [|y r] IH].
  - simpl. split; constructor.
  - simpl. split; [now repeat constructor|].
    intros H. now inversion H.
  - change (join space (x :: y :: r))
      with (x ++ space ++ join space (y :: r)).
    rewrite !blank_app, IH. split.
    + intros (Hx & _ & Hr). now constructor.
    + intros H. inversion H; subst. split; [assumption|].
      split; [repeat constructor|assumption].
Qed.

(** X15: the text [extract_text] of [SFLizer_1_04.py] returns neither
    begins nor ends with a white-space character, and it is empty
    exactly when every page gave [None] or white space only: missing
    pages leave nothing behind, not even the separating spaces. *)
Theorem extract_text_trimmed (pages : list (option ustr)) :
  let text := SFLizer.extract_text pages in
  (forall c r, text = c :: r -> is_space c = false)
  /\ (forall r c, text = r ++ [c] -> is_space c = false)
  /\ (text = [] <->
      forall s, In (Some s) pages ->
                Forall (fun c => is_space c = true) s).
Proof.
  cbv zeta. unfold SFLizer.extract_text. split; [|split].
  - intros c r. apply strip_head.
  - intros r c. unfold strip. apply rstrip_last.
  - rewrite strip_nil, join_blank, Forall_forall. split.
    + intros H s Hin.
      specialize (H _ (in_map SFLizer.or_empty _ _ Hin)).
      now destruct s.
    + intros H x Hx. apply in_map_iff in Hx.
      destruct Hx as ([s|] & <- & Hin).
      * specialize (H s Hin). now destruct s.
      * constructor.
Qed.

Lemma fold_app_concat (pages : list ustr) (acc : ustr) :
  fold_left (fun text page => text ++ page) pages acc = acc ++ List.concat pages.
Proof.
  revert acc. induction pages as [|p pages IH]; intros acc; simpl.
  - now rewrite app_nil_r.
  - now rewrite IH, app_assoc.
Qed.

Lemma remove_zero_width_app s1 s2 :
  remove_zero_width (s1 ++ s2)
  = remove_zero_width s1 ++ remove_zero_width s2.
Proof. apply filter_app. Qed.

Lemma remove_zero_width_id s :
  Forall (fun c => c <> 8203%N /\ c <> 65279%N) s ->
  remove_zero_width s = s.
Proof.
  unfold remove_zero_width.
  induction 1 as [|c s [H1 H2] _ IH]; simpl; [reflexivity|].
  unfold is_zero_width at 1. apply N.eqb_neq in H1, H2.
  rewrite H1, H2. simpl. now rewrite IH.
Qed.

(** X16: the text [extract_text] of [streamlit_app.py] returns is the
    texts of the pages, in page order, each without its U+200B and
    U+FEFF characters: the result holds neither character, and pages
    that hold neither are passed on unchanged. *)
Theorem extract_text_zero_width (pages : list ustr) :
  let text := StreamlitApp.extract_text pages in
  text = List.concat (map remove_zero_width pages)
  /\ Forall (fun c => c <> 8203%N /\ c <> 65279%N) text
  /\ (Forall (Forall (fun c => c <> 8203%N /\ c <> 65279%N)) pages ->
      text = List.concat pages).
Proof.
  cbv zeta. unfold StreamlitApp.extract_text.
  rewrite fold_app_concat. simpl.
  assert (Hc : remove_zero_width (List.concat pages)
               = List.concat (map remove_zero_width pages)).
  { induction pages as [|p pages IH]; simpl; [reflexivity|].
    now rewrite remove_zero_width_app, IH. }
  split; [exact Hc|]. split.
  - apply Forall_forall. intros c Hin. unfold remove_zero_width in Hin.
    apply filter_In in Hin. destruct Hin as [_ Hz].
    unfold is_zero_width in Hz.
    rewrite negb_true_iff, orb_false_iff, !N.eqb_neq in Hz. exact Hz.
  - intros Hall. rewrite Hc. f_equal. clear Hc.
    induction Hall as [|p pages Hp _ IH]; simpl; [reflexivity|].
    rewrite IH. f_equal. now apply remove_zero_width_id.
Qed.

End Text.
